(** * anerd: Asynchronous Network Exchange Randomness Daemon

    A shallow embedding of [anerd.c]: the responder loop [anerd_server] and
    the donor loop [anerd_client], with every call the program makes to the
    system recorded as an event of a trace.  What the system answers (the
    datagram that arrives, the clock, the bytes the entropy pool delivers,
    the return value of [sendto], ...) is an input of the model.  [main]
    is embedded as the argument loop [parse_args] and the choice of the
    loop by the return value of [fork]. *)

From Stdlib Require Import ZArith List Lia Bool String Ascii.
From Stdlib.Strings Require Import Byte.
From stdpp Require Import base list.

Local Open Scope string_scope.
Local Open Scope list_scope.
Local Open Scope Z_scope.

(** ** Machine integers

    [int] is 32 bits wide and [size_t] 64 bits wide.  Storing a wider value
    in an [int], and the overflow of an [int] product, are modelled by
    two's-complement wrap-around, which is what the compiled code computes. *)

Module CInt.

Definition to_int (z : Z) : Z := (z + 2 ^ 31) mod 2 ^ 32 - 2 ^ 31.

Definition to_size_t (z : Z) : Z := z mod 2 ^ 64.

Definition int_mul (a b : Z) : Z := to_int (a * b).

Definition in_int (z : Z) : Prop := - 2 ^ 31 <= z < 2 ^ 31.

End CInt.

Import CInt.

Definition DEFAULT_SIZE : Z := 64.
Definition DEFAULT_PORT : Z := 26373.
Definition DEFAULT_INTERVAL : Z := 60.

(** ** Bytes and the [data] buffer

    [data] is the block of [size] bytes that [calloc] returns, modelled as
    the list of its cells.  Cells outside the block are not part of the
    model: a store that falls outside leaves every cell of the block as it
    was, a copy out of the block stops at its last cell, and a scan for the
    terminating NUL that finds none in the block has no result. *)

Definition NUL : byte := x00.

Definition byte_of_Z (z : Z) : byte :=
  match Byte.of_N (Z.to_N (z mod 256)) with
  | Some b => b
  | None => x00
  end.

(** The first [count] cells of [cells], as far as they go. *)
Fixpoint read_cells (cells : list byte) (count : Z) : list byte :=
  match cells with
  | [] => []
  | b :: rest => if 0 <? count then b :: read_cells rest (count - 1) else []
  end.

(** [src] copied over the front of [dst]. *)
Fixpoint write_cells (src dst : list byte) : list byte :=
  match src, dst with
  | s :: src', _ :: dst' => s :: write_cells src' dst'
  | _, _ => dst
  end.

Definition in_bounds (size idx : Z) : bool := (0 <=? idx) && (idx <? size).

(** [data[idx] = c]. *)
Definition store_char (cells : list byte) (idx : Z) (c : byte) : list byte :=
  if in_bounds (Z.of_nat (length cells)) idx
  then <[Z.to_nat idx := c]> cells
  else cells.

(** [strlen(data)]: the index of the first NUL cell. *)
Fixpoint strlen (cells : list byte) : option nat :=
  match cells with
  | [] => None
  | b :: rest => if Byte.eqb b NUL then Some 0%nat else S <$> strlen rest
  end.

(** The bytes [sendto(sock, data, strlen(data), ...)] puts on the wire. *)
Definition c_string (cells : list byte) : option (list byte) :=
  (fun k => take k cells) <$> strlen cells.

(** ** The salt

    [salt] is a [double] that receives the [int] product of two timestamps;
    every [int] is a [double], so the conversion is exact.  [double_bits] is
    the IEEE 754 binary64 pattern of an integer, [double_bytes] its eight
    bytes in the order a little-endian host stores them. *)

Record timeval := { tv_sec : Z; tv_usec : Z }.

(** [1000000 * tv.tv_usec + tv.tv_usec], stored in an [int]. *)
Definition usec_stamp (tv : timeval) : Z :=
  to_int (1000000 * tv_usec tv + tv_usec tv).

Definition double_bits (z : Z) : Z :=
  if z =? 0 then 0
  else
    let a := Z.abs z in
    let e := Z.log2 a in
    (if z <? 0 then 2 ^ 63 else 0) + (e + 1023) * 2 ^ 52 + (a * 2 ^ (52 - e) - 2 ^ 52).

Fixpoint le_bytes (n : nat) (z : Z) : list byte :=
  match n with
  | O => []
  | S n' => byte_of_Z z :: le_bytes n' (z / 256)
  end.

Definition sizeof_double : Z := 8.

Definition double_bytes (z : Z) : list byte :=
  le_bytes (Z.to_nat sizeof_double) (double_bits z).

(** ** Addresses

    [sin_port] holds the 16-bit port number and [sin_addr] the 32-bit
    address; the byte order of the two fields is left abstract. *)

Record sockaddr_in := { sin_addr : Z; sin_port : Z }.

Definition INADDR_ANY : Z := 0.
Definition INADDR_BROADCAST : Z := 4294967295.

Definition htons (x : Z) : Z := x mod 2 ^ 16.
Definition ntohs (x : Z) : Z := x mod 2 ^ 16.
Definition htonl (x : Z) : Z := x mod 2 ^ 32.

(** ** Events *)

Inductive log_record :=
| Received (bytes : Z) (addr : Z) (port : Z)
| Transmit (bytes : Z) (addr : Z) (port : Z)
| Donated (bytes : Z) (addr : Z) (port : Z).

Inductive event :=
| EvSocket (ret : Z)
| EvFopen (mode : string) (ok : bool)
| EvCalloc (nmemb : Z) (ok : bool)
| EvBind (sock : Z) (addr : sockaddr_in) (ret : Z)
| EvSetsockopt (sock : Z) (ret : Z)
| EvGettimeofday (tv : timeval)
| EvRecvfrom (sock : Z) (len : Z) (ret : Z)
| EvStore (idx : Z)
| EvSyslog (r : log_record)
| EvFflushStdout
| EvFwrite (size count : Z) (bytes : list byte)
| EvFflush
| EvFread (size count : Z) (got : list byte)
| EvSendto (sock : Z) (payload : option (list byte)) (dest : sockaddr_in) (ret : Z)
| EvPerror (s : string)
| EvSleep (secs : Z)
| EvClose (fd : Z)
| EvFree
| EvFclose
| EvExit (status : Z).

(** ** Programs

    A program yields the trace of its events and how it stands at the end
    of the trace: it has a value, it has left through [exit], or it waits
    for an answer of the system that the inputs no longer provide. *)

Inductive result (A : Type) :=
| Val (a : A)
| Halted (status : Z)
| Blocked.

Arguments Val {A} a.
Arguments Halted {A} status.
Arguments Blocked {A}.

Definition io (A : Type) : Type := (list event * result A)%type.

Definition ret {A : Type} (a : A) : io A := ([], Val a).

Definition bind {A B : Type} (m : io A) (k : A -> io B) : io B :=
  match m with
  | (t, Val a) => let (t', r) := k a in (t ++ t', r)
  | (t, Halted status) => (t, Halted status)
  | (t, Blocked) => (t, Blocked)
  end.

Definition emit (e : event) : io unit := ([e], Val tt).

Definition exit {A : Type} (status : Z) : io A := ([EvExit status], Halted status).

Declare Scope io_scope.
Delimit Scope io_scope with io.
Notation "x <- m ;; k" := (bind m (fun x => k))
  (at level 20, m at level 99, k at level 200, only parsing) : io_scope.
Notation "m ;; k" := (bind m (fun _ => k))
  (at level 100, k at level 200, only parsing, right associativity) : io_scope.

Local Open Scope io_scope.

(** ** anerd server *)

(** What the system answers during set-up. *)
Record server_env := {
  s_socket : Z;               (* return value of socket() *)
  s_fopen : bool;             (* fopen() returned a stream *)
  s_calloc : bool;            (* calloc() returned a block *)
  s_bind : Z;                 (* return value of bind() *)
  s_clock : timeval;          (* the first gettimeofday() *)
  s_client_addr : sockaddr_in (* client_addr before the first recvfrom() *)
}.

(** What the system answers during one turn of the loop. *)
Record datagram_io := {
  arrival : option (list byte * sockaddr_in); (* the datagram and its sender; None: recvfrom() fails *)
  clock : timeval;                            (* gettimeofday() *)
  pool_out : list byte;                       (* the bytes the pool holds ready for fread() *)
  sendto_ret : Z                              (* return value of sendto() *)
}.

(** The variables that live across turns of the loop. *)
Record server_state := {
  data : list byte;
  last_usec : Z;
  client_addr : sockaddr_in
}.

Definition server_iteration (sock size : Z) (x : datagram_io) (st : server_state)
  : io server_state :=
  (* bytes_read = recvfrom(sock, data, size, 0, &client_addr, &addr_len); *)
  let '(bytes_read, data1, peer) :=
    match arrival x with
    | Some (dgram, from) =>
        let got := read_cells dgram (to_size_t size) in
        (Z.of_nat (length got), write_cells got (data st), from)
    | None => (-1, data st, client_addr st)
    end in
  emit (EvRecvfrom sock (to_size_t size) bytes_read) ;;
  (* data[bytes_read] = '\0'; *)
  let data2 := store_char data1 bytes_read NUL in
  emit (EvStore bytes_read) ;;
  (* gettimeofday(&tv, &tz); this_usec = ...; salt = last_usec * this_usec; *)
  emit (EvGettimeofday (clock x)) ;;
  let this_usec := usec_stamp (clock x) in
  let salt := int_mul (last_usec st) this_usec in
  emit (EvSyslog (Received bytes_read (sin_addr peer) (ntohs (sin_port peer)))) ;;
  emit EvFflushStdout ;;
  (* fwrite(data, sizeof(char), bytes_read, fp); *)
  emit (EvFwrite 1 (to_size_t bytes_read) (read_cells data2 (to_size_t bytes_read))) ;;
  (* fwrite(&salt, sizeof(double), 1, fp); fflush(fp); *)
  emit (EvFwrite sizeof_double 1 (double_bytes salt)) ;;
  emit EvFflush ;;
  (* fread(data, sizeof(char), bytes_read, fp); *)
  let got := read_cells (pool_out x) (to_size_t bytes_read) in
  let data3 := write_cells got data2 in
  emit (EvFread 1 (to_size_t bytes_read) got) ;;
  (* sendto(sock, data, strlen(data), 0, &client_addr, ...); *)
  emit (EvSendto sock (c_string data3) peer (sendto_ret x)) ;;
  emit (EvSyslog (Transmit bytes_read (sin_addr peer) (ntohs (sin_port peer)))) ;;
  ret {| data := data3; last_usec := this_usec; client_addr := peer |}.

(** [while (1) { ... }]: one turn per input; with no input left the loop
    waits in [recvfrom]. *)
Fixpoint server_loop (sock size : Z) (xs : list datagram_io) (st : server_state)
  : io Z :=
  match xs with
  | [] => ([], Blocked)
  | x :: xs' =>
      st' <- server_iteration sock size x st ;;
      server_loop sock size xs' st'
  end.

(** The variables when the loop is entered: the zeroed buffer of [calloc]
    and [last_usec = 1000000 * tv.tv_usec + tv.tv_usec]. *)
Definition initial_state (size : Z) (env : server_env) : server_state :=
  {| data := repeat NUL (Z.to_nat size);
     last_usec := usec_stamp (s_clock env);
     client_addr := s_client_addr env |}.

Definition anerd_server (size port : Z) (env : server_env) (xs : list datagram_io)
  : io Z :=
  let sock := s_socket env in
  emit (EvSocket sock) ;;
  (if sock =? -1 then (emit (EvPerror "Socket") ;; exit 1) else ret tt) ;;
  emit (EvFopen "a+" (s_fopen env)) ;;
  (if s_fopen env then ret tt else (emit (EvPerror "fopen") ;; exit 1)) ;;
  emit (EvCalloc (to_size_t size) (s_calloc env)) ;;
  (if s_calloc env then ret tt else (emit (EvPerror "calloc") ;; exit 1)) ;;
  let server_addr := {| sin_addr := INADDR_ANY; sin_port := htons port |} in
  emit (EvBind sock server_addr (s_bind env)) ;;
  (if s_bind env =? -1 then (emit (EvPerror "Bind") ;; exit 1) else ret tt) ;;
  emit (EvGettimeofday (s_clock env)) ;;
  server_loop sock size xs (initial_state size env).

(** The state after a turn; a turn always has one. *)
Definition state_after (sock size : Z) (x : datagram_io) (st : server_state)
  : server_state :=
  match snd (server_iteration sock size x st) with
  | Val st' => st'
  | _ => st
  end.

(** ** anerd client *)

Record client_env := {
  c_calloc : bool;     (* calloc() returned a block *)
  c_socket : Z;        (* return value of socket() *)
  c_setsockopt : Z;    (* return value of setsockopt() *)
  c_fopen : bool       (* fopen() returned a stream *)
}.

Record cycle_io := {
  pool_read : list byte;  (* the bytes the pool holds ready for fread() *)
  bcast_ret : Z           (* return value of sendto() *)
}.

Definition client_cycle (sock size : Z) (server_addr : sockaddr_in) (interval : Z)
    (x : cycle_io) (data : list byte) : io (list byte) :=
  (* fread(data, 1, size, fp) > 0 *)
  let got := read_cells (pool_read x) (to_size_t size) in
  let data' := write_cells got data in
  emit (EvFread 1 (to_size_t size) got) ;;
  (if 0 <? Z.of_nat (length got) then
     emit (EvSyslog (Donated size (sin_addr server_addr) (ntohs (sin_port server_addr)))) ;;
     (* sendto(sock, data, size, 0, &server_addr, ...); *)
     emit (EvSendto sock (Some (read_cells data' (to_size_t size))) server_addr (bcast_ret x))
   else
     emit (EvPerror "fread")) ;;
  emit (EvSleep interval) ;;
  ret data'.

(** [while (interval > 0) { ... }] *)
Fixpoint client_loop (sock size : Z) (server_addr : sockaddr_in) (interval : Z)
    (xs : list cycle_io) (data : list byte) : io (list byte) :=
  if 0 <? interval then
    match xs with
    | [] => ([], Blocked)
    | x :: xs' =>
        data' <- client_cycle sock size server_addr interval x data ;;
        client_loop sock size server_addr interval xs' data'
    end
  else ret data.

(** [server_addr] of the client: the broadcast address and the port. *)
Definition broadcast_addr (port : Z) : sockaddr_in :=
  {| sin_addr := htonl INADDR_BROADCAST; sin_port := htons port |}.

Definition anerd_client (size port interval : Z) (env : client_env) (xs : list cycle_io)
  : io Z :=
  emit (EvCalloc (to_size_t size) (c_calloc env)) ;;
  (if c_calloc env then ret tt else (emit (EvPerror "calloc") ;; exit 1)) ;;
  let sock := c_socket env in
  emit (EvSocket sock) ;;
  (if sock =? -1 then emit (EvPerror "socket") else ret tt) ;;
  emit (EvSetsockopt sock (c_setsockopt env)) ;;
  (if c_setsockopt env =? -1 then emit (EvPerror "setsockopt (SO_BROADCAST)") else ret tt) ;;
  let server_addr := broadcast_addr port in
  emit (EvFopen "r" (c_fopen env)) ;;
  (if c_fopen env then ret tt
   else (emit (EvPerror "fopen") ;; emit (EvClose sock) ;; exit 1)) ;;
  _ <- client_loop sock size server_addr interval xs (repeat NUL (Z.to_nat size)) ;;
  emit (EvClose sock) ;;
  emit EvFree ;;
  emit EvFclose ;;
  ret 0.

(** ** Views of a trace *)

(** The traffic with the entropy pool and the replies. *)
Definition is_pool_event (e : event) : bool :=
  match e with
  | EvFwrite _ _ _ | EvFflush | EvFread _ _ _ | EvSendto _ _ _ _ => true
  | _ => false
  end.

Definition pool_view (t : list event) : list event := filter is_pool_event t.

(** What reaches [syslog] and [perror]. *)
Definition is_diagnostic (e : event) : bool :=
  match e with
  | EvSyslog _ | EvPerror _ => true
  | _ => false
  end.

Definition diagnostics (t : list event) : list event := filter is_diagnostic t.

(** The datagrams handed to [sendto]; [None] stands for a datagram whose
    length the buffer does not determine. *)
Definition sent (t : list event) : list (option (list byte)) :=
  omap (fun e => match e with EvSendto _ p _ _ => Some p | _ => None end) t.

(** The return values of [recvfrom]. *)
Definition received (t : list event) : list Z :=
  omap (fun e => match e with EvRecvfrom _ _ n => Some n | _ => None end) t.

(** The indices of the stores into [data]. *)
Definition stores (t : list event) : list Z :=
  omap (fun e => match e with EvStore i => Some i | _ => None end) t.

Definition sleeps (t : list event) : list Z :=
  omap (fun e => match e with EvSleep s => Some s | _ => None end) t.

Definition exits (t : list event) : list Z :=
  omap (fun e => match e with EvExit s => Some s | _ => None end) t.

(** ** Derived notions *)

(** The salt of a turn as a function of the clock reading of the turn before
    and the clock reading of this turn. *)
Definition salt_of (last this : timeval) : Z :=
  int_mul (usec_stamp last) (usec_stamp this).

Definition with_sendto_ret (r : Z) (x : datagram_io) : datagram_io :=
  {| arrival := arrival x; clock := clock x; pool_out := pool_out x; sendto_ret := r |}.





(** ** Sample inputs *)

Definition peer_X : sockaddr_in := {| sin_addr := 3232235777; sin_port := 40000 |}.

(** Every set-up call of the responder succeeds. *)
Definition setup_ok : server_env :=
  {| s_socket := 3; s_fopen := true; s_calloc := true; s_bind := 0;
     s_clock := {| tv_sec := 1351600000; tv_usec := 250000 |};
     s_client_addr := {| sin_addr := 0; sin_port := 0 |} |}.

(** Peer X sends the two bytes "AB"; the pool then delivers a NUL byte
    followed by 0x17. *)
Definition datagram_AB : datagram_io :=
  {| arrival := Some ([x41; x42], peer_X);
     clock := {| tv_sec := 1351600001; tv_usec := 500000 |};
     pool_out := [x00; x17];
     sendto_ret := 0 |}.

(** The same exchange with a pool that delivers no NUL byte, once with a
    [sendto] that succeeds and once with a [sendto] that fails. *)
Definition datagram_AB_sent : datagram_io :=
  {| arrival := Some ([x41; x42], peer_X);
     clock := {| tv_sec := 1351600001; tv_usec := 500000 |};
     pool_out := [x5a; x17];
     sendto_ret := 2 |}.

Definition datagram_AB_unsent : datagram_io :=
  {| arrival := Some ([x41; x42], peer_X);
     clock := {| tv_sec := 1351600001; tv_usec := 500000 |};
     pool_out := [x5a; x17];
     sendto_ret := -1 |}.

(** Peer X sends as many bytes as the buffer holds. *)
Definition datagram_full : datagram_io :=
  {| arrival := Some (repeat x41 (Z.to_nat DEFAULT_SIZE), peer_X);
     clock := {| tv_sec := 1351600001; tv_usec := 500000 |};
     pool_out := repeat x5a (Z.to_nat DEFAULT_SIZE);
     sendto_ret := 64 |}.

(** [recvfrom] fails. *)
Definition datagram_lost : datagram_io :=
  {| arrival := None;
     clock := {| tv_sec := 1351600001; tv_usec := 500000 |};
     pool_out := [];
     sendto_ret := -1 |}.

(** Only [socket] fails (and with it [setsockopt] on the missing socket). *)
Definition socket_fails : client_env :=
  {| c_calloc := true; c_socket := -1; c_setsockopt := -1; c_fopen := true |}.

(** Only [setsockopt] fails. *)
Definition setsockopt_fails : client_env :=
  {| c_calloc := true; c_socket := 3; c_setsockopt := -1; c_fopen := true |}.

(** The pool delivers a full buffer; the broadcast fails. *)
Definition cycle_full : cycle_io :=
  {| pool_read := repeat x5a (Z.to_nat DEFAULT_SIZE); bcast_ret := -1 |}.

(** The pool delivers three bytes. *)
Definition cycle_short : cycle_io :=
  {| pool_read := [x5a; x17; x2a]; bcast_ret := 64 |}.

(** The pool delivers nothing. *)
Definition cycle_empty : cycle_io :=
  {| pool_read := []; bcast_ret := 0 |}.

(** ** main

    [argv] is the list of the [argc] argument strings; [argv[argc]] is the
    null pointer.  [atoi] belongs to the C library and is a parameter of
    the model. *)

Definition DEFAULT_DEVICE : string := "/dev/urandom".

Definition char_code (c : ascii) : Z := Z.of_N (N_of_ascii c).

(** [strncmp(s1, s2, n)]: the difference of the first two characters that
    differ among the first [n], the end of a string counting as the
    character 0; 0 if there is none. *)
Fixpoint strncmp (s1 s2 : string) (n : nat) {struct n} : Z :=
  match n with
  | O => 0
  | S n' =>
      match s1, s2 with
      | EmptyString, EmptyString => 0
      | EmptyString, String c2 _ => 0 - char_code c2
      | String c1 _, EmptyString => char_code c1
      | String c1 r1, String c2 r2 =>
          if char_code c1 =? char_code c2
          then (if char_code c1 =? 0 then 0 else strncmp r1 r2 n')
          else char_code c1 - char_code c2
      end
  end.

(** The variables [device], [interval], [port] and [size] of [main];
    [cfg_device = None] is the null pointer. *)
Record config := {
  cfg_device : option string;
  cfg_interval : Z;
  cfg_port : Z;
  cfg_size : Z
}.

Definition defaults : config :=
  {| cfg_device := Some DEFAULT_DEVICE;
     cfg_interval := DEFAULT_INTERVAL;
     cfg_port := DEFAULT_PORT;
     cfg_size := DEFAULT_SIZE |}.

Definition set_device (d : option string) (cfg : config) : config :=
  {| cfg_device := d; cfg_interval := cfg_interval cfg;
     cfg_port := cfg_port cfg; cfg_size := cfg_size cfg |}.

Definition set_interval (v : Z) (cfg : config) : config :=
  {| cfg_device := cfg_device cfg; cfg_interval := v;
     cfg_port := cfg_port cfg; cfg_size := cfg_size cfg |}.

Definition set_port (v : Z) (cfg : config) : config :=
  {| cfg_device := cfg_device cfg; cfg_interval := cfg_interval cfg;
     cfg_port := v; cfg_size := cfg_size cfg |}.

Definition set_size (v : Z) (cfg : config) : config :=
  {| cfg_device := cfg_device cfg; cfg_interval := cfg_interval cfg;
     cfg_port := cfg_port cfg; cfg_size := v |}.

(** [for (i=0; i<argc; i++) { ... argv[++i] ... }] over the arguments
    [argv[i]], [argv[i+1]], ... that are left.  A flag takes the argument
    behind it, which the loop then steps over; behind the last argument
    there is the null pointer, and [atoi] of it has no result. *)
Fixpoint parse_args (atoi : string -> Z) (args : list string) (cfg : config)
  : option config :=
  match args with
  | [] => Some cfg
  | arg :: rest =>
      if strncmp arg "-d" 2 =? 0 then
        match rest with
        | value :: rest' => parse_args atoi rest' (set_device (Some value) cfg)
        | [] => Some (set_device None cfg)
        end
      else if strncmp arg "-i" 2 =? 0 then
        match rest with
        | value :: rest' => parse_args atoi rest' (set_interval (atoi value) cfg)
        | [] => None
        end
      else if strncmp arg "-p" 2 =? 0 then
        match rest with
        | value :: rest' => parse_args atoi rest' (set_port (atoi value) cfg)
        | [] => None
        end
      else if strncmp arg "-s" 2 =? 0 then
        match rest with
        | value :: rest' => parse_args atoi rest' (set_size (atoi value) cfg)
        | [] => None
        end
      else parse_args atoi rest cfg
  end.

(** [main] in the process in which [fork()] returned [pid]: the child
    ([pid = 0]) runs the client, every other process the server; a process
    that comes back from its loop leaves [main] with status 0.  [openlog]
    leaves no event. *)
Definition main (atoi : string -> Z) (argv : list string) (pid : Z)
    (cenv : client_env) (cycles : list cycle_io)
    (senv : server_env) (datagrams : list datagram_io) : option (io Z) :=
  match parse_args atoi argv defaults with
  | None => None
  | Some cfg =>
      Some (if pid =? 0 then
              (_ <- anerd_client (cfg_size cfg) (cfg_port cfg) (cfg_interval cfg)
                      cenv cycles ;;
               ret 0)
            else
              (_ <- anerd_server (cfg_size cfg) (cfg_port cfg) senv datagrams ;;
               ret 0))
  end.

(** ** More derived notions *)

(** The cells in front of the first NUL. *)
Fixpoint until_nul (cells : list byte) : list byte :=
  match cells with
  | [] => []
  | b :: rest => if Byte.eqb b NUL then [] else b :: until_nul rest
  end.

(** The addresses handed to [sendto]. *)
Definition sent_to (t : list event) : list sockaddr_in :=
  omap (fun e => match e with EvSendto _ _ a _ => Some a | _ => None end) t.

(** The strings handed to [perror]. *)
Definition perrors (t : list event) : list string :=
  omap (fun e => match e with EvPerror m => Some m | _ => None end) t.

Definition with_bcast_ret (r : Z) (x : cycle_io) : cycle_io :=
  {| pool_read := pool_read x; bcast_ret := r |}.

(** [fread] stores at least one byte in this cycle. *)
Definition donates (size : Z) (x : cycle_io) : bool :=
  0 <? Z.of_nat (length (read_cells (pool_read x) (to_size_t size))).

(** An argument that [main] takes for one of its four flags. *)
Definition is_flag (arg : string) : bool :=
  (strncmp arg "-d" 2 =? 0) || (strncmp arg "-i" 2 =? 0)
  || (strncmp arg "-p" 2 =? 0) || (strncmp arg "-s" 2 =? 0).

(** A sample [atoi] for strings of decimal digits. *)
Fixpoint decimal (s : string) (acc : Z) : Z :=
  match s with
  | EmptyString => acc
  | String c rest =>
      let d := char_code c - 48 in
      if (0 <=? d) && (d <=? 9) then decimal rest (10 * acc + d) else acc
  end.

Definition atoi_decimal (s : string) : Z := to_int (decimal s 0).

(** The four flags of [main], and a command line written out from a list
    of options: each option is a flag, spelled with its two characters and
    anything behind them, followed by its value. *)
Inductive flag := FlagDevice | FlagInterval | FlagPort | FlagSize.

Definition flag_letter (f : flag) : ascii :=
  match f with
  | FlagDevice => "d"
  | FlagInterval => "i"
  | FlagPort => "p"
  | FlagSize => "s"
  end%char.

Definition set_flag (atoi : string -> Z) (f : flag) (value : string) (cfg : config)
  : config :=
  match f with
  | FlagDevice => set_device (Some value) cfg
  | FlagInterval => set_interval (atoi value) cfg
  | FlagPort => set_port (atoi value) cfg
  | FlagSize => set_size (atoi value) cfg
  end.

Fixpoint command_line (opts : list (flag * string * string)) : list string :=
  match opts with
  | [] => []
  | (f, suffix, value) :: opts' =>
      String "-" (String (flag_letter f) suffix) :: value :: command_line opts'
  end.

Definition set_flags (atoi : string -> Z) (opts : list (flag * string * string))
    (cfg : config) : config :=
  fold_left (fun c '(f, _, value) => set_flag atoi f value c) opts cfg.

(** The salts appended to the pool: what [fwrite] is given with an
    element size of [sizeof(double)]. *)
Definition salts_written (t : list event) : list (list byte) :=
  omap (fun e =>
          match e with
          | EvFwrite size _ bytes => if size =? sizeof_double then Some bytes else None
          | _ => None
          end) t.

(** The salts of successive clock readings, from the reading [last] on. *)
Fixpoint salt_chain (last : timeval) (readings : list timeval) : list Z :=
  match readings with
  | [] => []
  | this :: readings' => salt_of last this :: salt_chain this readings'
  end.

(** Reading a [double] back: the integer of eight little-endian bytes, and
    the integer value of a binary64 pattern that holds an integer. *)
Fixpoint Z_of_le_bytes (bytes : list byte) : Z :=
  match bytes with
  | [] => 0
  | b :: rest => Z.of_N (Byte.to_N b) + 256 * Z_of_le_bytes rest
  end.

Definition Z_of_double_bits (bits : Z) : Z :=
  if bits =? 0 then 0
  else
    let e := (bits / 2 ^ 52) mod 2 ^ 11 - 1023 in
    let a := (2 ^ 52 + bits mod 2 ^ 52) / 2 ^ (52 - e) in
    if bits / 2 ^ 63 =? 1 then - a else a.

(** ** More sample inputs *)

(** Peer X sends "AB"; the pool delivers nothing. *)
Definition datagram_AB_dry : datagram_io :=
  {| arrival := Some ([x41; x42], peer_X);
     clock := {| tv_sec := 1351600001; tv_usec := 500000 |};
     pool_out := [];
     sendto_ret := 2 |}.

(** Peer X sends a datagram without bytes. *)
Definition datagram_empty : datagram_io :=
  {| arrival := Some ([], peer_X);
     clock := {| tv_sec := 1351600001; tv_usec := 500000 |};
     pool_out := [x5a; x17];
     sendto_ret := 0 |}.

(** ** The buffer operations *)

Section Cells.

Implicit Types (cells src dst : list byte) (count idx : Z).

Lemma read_cells_take cells count :
  read_cells cells count = take (Z.to_nat count) cells.
Proof.
  revert count. induction cells as [|b rest IH]; intros count; simpl.
  - by rewrite take_nil.
  - destruct (Z.ltb_spec 0 count) as [Hpos|Hneg].
    + rewrite IH. replace (Z.to_nat count) with (S (Z.to_nat (count - 1))) by lia.
      done.
    + replace (Z.to_nat count) with 0%nat by lia. done.
Qed.

Lemma length_read_cells cells count :
  length (read_cells cells count) = (Z.to_nat count `min` length cells)%nat.
Proof. by rewrite read_cells_take, length_take. Qed.

Lemma read_cells_all cells count :
  Z.of_nat (length cells) <= count -> read_cells cells count = cells.
Proof. intros H. rewrite read_cells_take. apply take_ge. lia. Qed.

Lemma write_cells_app src dst :
  write_cells src dst = take (length dst) src ++ drop (length src) dst.
Proof.
  revert dst. induction src as [|s src IH]; intros [|d dst]; simpl; try done.
  by rewrite IH.
Qed.

Lemma length_write_cells src dst : length (write_cells src dst) = length dst.
Proof.
  revert dst. induction src as [|s src IH]; intros [|d dst]; simpl; try done.
  by rewrite IH.
Qed.

Lemma write_cells_fits src dst :
  (length src <= length dst)%nat ->
  write_cells src dst = src ++ drop (length src) dst.
Proof. intros H. rewrite write_cells_app, take_ge; [done|lia]. Qed.

Lemma length_store_char cells idx c : length (store_char cells idx c) = length cells.
Proof. unfold store_char. destruct (in_bounds _ _); [apply length_insert|done]. Qed.

Lemma in_bounds_true size idx : in_bounds size idx = true <-> 0 <= idx < size.
Proof. unfold in_bounds. rewrite andb_true_iff, Z.leb_le, Z.ltb_lt. done. Qed.

Lemma in_bounds_false size idx : in_bounds size idx = false <-> idx < 0 \/ size <= idx.
Proof.
  unfold in_bounds. rewrite andb_false_iff, Z.leb_gt, Z.ltb_ge. done.
Qed.

(** A store at or after [count] is not seen by a copy of the first
    [count] cells. *)
Lemma read_cells_store cells count idx c :
  count <= idx -> read_cells (store_char cells idx c) count = read_cells cells count.
Proof.
  intros H. rewrite !read_cells_take. unfold store_char.
  destruct (in_bounds _ _) eqn:Hin; [|done].
  apply in_bounds_true in Hin. apply take_insert_ge. lia.
Qed.

Lemma lookup_store_char cells idx c :
  0 <= idx < Z.of_nat (length cells) ->
  store_char cells idx c !! Z.to_nat idx = Some c.
Proof.
  intros H. unfold store_char.
  destruct (in_bounds _ _) eqn:Hin.
  - apply list_lookup_insert_eq. lia.
  - apply in_bounds_false in Hin. lia.
Qed.

Lemma strlen_bound cells (i : nat) :
  cells !! i = Some NUL -> exists k, strlen cells = Some k /\ (k <= i)%nat.
Proof.
  revert i. induction cells as [|b rest IH]; intros i Hi; [done|].
  simpl. destruct (Byte.eqb b NUL) eqn:Hb.
  - exists 0%nat. split; [done|lia].
  - destruct i as [|i]; simpl in Hi.
    + injection Hi as ->. discriminate Hb.
    + destruct (IH i Hi) as (k & -> & Hk). exists (S k). split; [done|lia].
Qed.

Lemma strlen_lt_length cells k : strlen cells = Some k -> (k < length cells)%nat.
Proof.
  revert k. induction cells as [|b rest IH]; intros k; simpl; [done|].
  destruct (Byte.eqb b NUL).
  - intros [= <-]. lia.
  - destruct (strlen rest) as [k'|]; simpl; [|done].
    intros [= <-]. specialize (IH k' eq_refl). lia.
Qed.

Lemma c_string_bound cells (i : nat) :
  cells !! i = Some NUL -> exists p, c_string cells = Some p /\ (length p <= i)%nat.
Proof.
  intros Hi. destruct (strlen_bound cells i Hi) as (k & Hk & Hle).
  unfold c_string. rewrite Hk. simpl. eexists. split; [done|].
  rewrite length_take. lia.
Qed.

End Cells.

(** ** Machine integers: facts *)

Lemma to_size_t_id (z : Z) : 0 <= z < 2 ^ 64 -> to_size_t z = z.
Proof. intros H. unfold to_size_t. apply Z.mod_small. lia. Qed.

Lemma to_int_id (z : Z) : in_int z -> to_int z = z.
Proof.
  unfold in_int, to_int. intros H.
  rewrite Z.mod_small by lia. lia.
Qed.

Lemma to_int_range (z : Z) : in_int (to_int z).
Proof.
  unfold in_int, to_int.
  pose proof (Z.mod_pos_bound (z + 2 ^ 31) (2 ^ 32) ltac:(lia)). lia.
Qed.

Lemma int_mul_comm (a b : Z) : int_mul a b = int_mul b a.
Proof. unfold int_mul. by rewrite Z.mul_comm. Qed.

Lemma int_mul_0_l (b : Z) : int_mul 0 b = 0.
Proof. reflexivity. Qed.

Lemma length_le_bytes (n : nat) (z : Z) : length (le_bytes n z) = n.
Proof. revert z. induction n as [|n IH]; intros z; simpl; [done|by rewrite IH]. Qed.

Lemma length_double_bytes (z : Z) : Z.of_nat (length (double_bytes z)) = sizeof_double.
Proof. unfold double_bytes. rewrite length_le_bytes. reflexivity. Qed.

Example double_bits_one : double_bits 1 = 0x3ff0000000000000.
Proof. reflexivity. Qed.

Example double_bits_minus_two : double_bits (-2) = 0xc000000000000000.
Proof. reflexivity. Qed.

Example double_bits_three : double_bits 3 = 0x4008000000000000.
Proof. reflexivity. Qed.

Example double_bytes_one : double_bytes 1 = [x00; x00; x00; x00; x00; x00; xf0; x3f].
Proof. reflexivity. Qed.

(** ** Set-up of the responder *)

Lemma length_initial_data size env :
  length (data (initial_state size env)) = Z.to_nat size.
Proof. apply repeat_length. Qed.

Lemma anerd_server_enters_loop size port env xs :
  s_socket env <> -1 -> s_fopen env = true -> s_calloc env = true -> s_bind env <> -1 ->
  anerd_server size port env xs
  = ([EvSocket (s_socket env); EvFopen "a+" true; EvCalloc (to_size_t size) true;
      EvBind (s_socket env) {| sin_addr := INADDR_ANY; sin_port := htons port |}
        (s_bind env);
      EvGettimeofday (s_clock env)]
       ++ fst (server_loop (s_socket env) size xs (initial_state size env)),
     snd (server_loop (s_socket env) size xs (initial_state size env))).
Proof.
  intros Hsock Hfopen Hcalloc Hbind. unfold anerd_server.
  rewrite Hfopen, Hcalloc.
  destruct (Z.eqb_spec (s_socket env) (-1)) as [|_]; [done|].
  destruct (Z.eqb_spec (s_bind env) (-1)) as [|_]; [done|].
  cbn [bind emit ret app].
  by destruct (server_loop (s_socket env) size xs (initial_state size env)).
Qed.

(** Each failing set-up call of the responder ends the process with status 1
    before the loop. *)
Lemma anerd_server_setup_failure_is_fatal size port env xs :
  s_socket env = -1 \/ s_fopen env = false \/ s_calloc env = false \/ s_bind env = -1 ->
  snd (anerd_server size port env xs) = Halted 1
  /\ exits (fst (anerd_server size port env xs)) = [1]
  /\ received (fst (anerd_server size port env xs)) = [].
Proof.
  unfold anerd_server. destruct env as [so fo cal bi tv0 addr0]. cbn [s_socket s_fopen s_calloc s_bind].
  intros H.
  destruct (Z.eqb_spec so (-1)) as [|Hso]; [done|].
  destruct fo; [|done]. destruct cal; [|done].
  destruct (Z.eqb_spec bi (-1)) as [|Hbi]; [done|].
  by destruct H as [?|[?|[?|?]]].
Qed.

(** ** One turn of the responder loop *)

Section Server.

Variables sock size : Z.

Lemma server_iteration_val x st :
  server_iteration sock size x st
  = (fst (server_iteration sock size x st), Val (state_after sock size x st)).
Proof.
  unfold state_after, server_iteration.
  destruct (arrival x) as [[dgram from]|]; reflexivity.
Qed.

Lemma server_loop_nil st : server_loop sock size [] st = ([], Blocked).
Proof. reflexivity. Qed.

Lemma server_loop_cons x xs st :
  server_loop sock size (x :: xs) st
  = (fst (server_iteration sock size x st)
       ++ fst (server_loop sock size xs (state_after sock size x st)),
     snd (server_loop sock size xs (state_after sock size x st))).
Proof.
  simpl. rewrite server_iteration_val. unfold bind.
  by destruct (server_loop sock size xs (state_after sock size x st)).
Qed.

(** The loop never leaves: it neither returns nor exits. *)
Lemma server_loop_blocked xs st : snd (server_loop sock size xs st) = Blocked.
Proof.
  revert st. induction xs as [|x xs IH]; intros st; [done|].
  rewrite server_loop_cons. simpl. apply IH.
Qed.


(** A turn that received a datagram, written out.  [got] are the bytes
    [recvfrom] stored, [reply] the bytes [fread] stored. *)
Lemma server_iteration_received x st dgram from :
  arrival x = Some (dgram, from) ->
  0 <= size < 2 ^ 31 ->
  length (data st) = Z.to_nat size ->
  let got := take (Z.to_nat size) dgram in
  let n := Z.of_nat (length got) in
  let reply := take (length got) (pool_out x) in
  let salt := int_mul (last_usec st) (usec_stamp (clock x)) in
  let data' := write_cells reply (store_char (write_cells got (data st)) n NUL) in
  server_iteration sock size x st
  = ([EvRecvfrom sock size n;
      EvStore n;
      EvGettimeofday (clock x);
      EvSyslog (Received n (sin_addr from) (ntohs (sin_port from)));
      EvFflushStdout;
      EvFwrite 1 n got;
      EvFwrite sizeof_double 1 (double_bytes salt);
      EvFflush;
      EvFread 1 n reply;
      EvSendto sock (c_string data') from (sendto_ret x);
      EvSyslog (Transmit n (sin_addr from) (ntohs (sin_port from)))],
     Val {| data := data'; last_usec := usec_stamp (clock x); client_addr := from |}).
Proof.
  intros Harr Hsize Hlen got n reply salt data'.
  assert (Hgot : read_cells dgram (to_size_t size) = got).
  { rewrite to_size_t_id by lia. apply read_cells_take. }
  assert (Hn : 0 <= n <= size).
  { subst n got. rewrite length_take. lia. }
  assert (Hsz : to_size_t n = n) by (apply to_size_t_id; lia).
  assert (Hreply : read_cells (pool_out x) n = reply).
  { rewrite read_cells_take. subst n reply. by rewrite Nat2Z.id. }
  assert (Hback : read_cells (store_char (write_cells got (data st)) n NUL) n = got).
  { rewrite read_cells_store by lia. rewrite read_cells_take.
    rewrite write_cells_fits by lia.
    subst n. rewrite Nat2Z.id. by rewrite take_app_length. }
  unfold server_iteration. rewrite Harr, Hgot. fold n.
  rewrite Hsz, to_size_t_id by lia.
  cbn [bind emit ret app]. rewrite Hback, Hreply. reflexivity.
Qed.

End Server.

(** ** The responder: reply length and the terminating store *)

(** With room left in the buffer the reply is never longer than the
    datagram: the NUL stored behind the received bytes is still there when
    [strlen] runs. *)
Lemma reply_no_longer_than_received sock size x st dgram from :
  arrival x = Some (dgram, from) ->
  0 <= size < 2 ^ 31 ->
  length (data st) = Z.to_nat size ->
  (length dgram < Z.to_nat size)%nat ->
  exists p, sent (fst (server_iteration sock size x st)) = [Some p]
            /\ (length p <= length dgram)%nat.
Proof.
  intros Harr Hsize Hlen Hroom.
  rewrite (server_iteration_received sock size x st dgram from Harr Hsize Hlen).
  cbn [fst sent omap list_omap]. simpl.
  rewrite (take_ge dgram) by lia.
  set (reply := take (length dgram) (pool_out x)).
  set (cells := store_char (write_cells dgram (data st)) (Z.of_nat (length dgram)) NUL).
  assert (Hnul : write_cells reply cells !! length dgram = Some NUL).
  { assert (Hcells : length cells = length (data st)).
    { subst cells. by rewrite length_store_char, length_write_cells. }
    assert (Hreply : (length reply <= length dgram)%nat).
    { subst reply. rewrite length_take. lia. }
    rewrite write_cells_fits by lia.
    rewrite lookup_app_r by lia. rewrite lookup_drop.
    replace (length reply + (length dgram - length reply))%nat with (length dgram) by lia.
    subst cells.
    pose proof (lookup_store_char (write_cells dgram (data st))
                  (Z.of_nat (length dgram)) NUL) as Hstore.
    rewrite Nat2Z.id in Hstore. apply Hstore.
    rewrite length_write_cells. lia. }
  destruct (c_string_bound _ _ Hnul) as (p & -> & Hp).
  exists p. done.
Qed.

(** The store behind the received bytes goes to the index [recvfrom]
    returned, whatever that is. *)
Lemma store_at_bytes_read sock size x st :
  stores (fst (server_iteration sock size x st))
  = received (fst (server_iteration sock size x st)).
Proof.
  unfold server_iteration. destruct (arrival x) as [[dgram from]|]; reflexivity.
Qed.

(** A datagram that is at least as long as the buffer sends the store one
    cell past the buffer. *)
Lemma full_datagram_store_past_end sock size x st dgram from :
  arrival x = Some (dgram, from) ->
  0 <= size < 2 ^ 31 ->
  (Z.to_nat size <= length dgram)%nat ->
  stores (fst (server_iteration sock size x st)) = [size]
  /\ in_bounds size size = false.
Proof.
  intros Harr Hsize Hfull. split.
  - unfold server_iteration. rewrite Harr. cbn [fst stores omap list_omap bind emit app].
    simpl. rewrite length_read_cells, to_size_t_id by lia.
    f_equal. lia.
  - apply in_bounds_false. lia.
Qed.

(** C1 (evaluated at a failing input).  Claim: the reply to a datagram of n
    bytes has length exactly n.  The responder passes [strlen(data)] to
    [sendto], so the reply stops at the first NUL byte the pool delivered:
    for the 2-byte datagram "AB" and the pool bytes 00 17, [recvfrom]
    returns 2, the datagram sent back is empty, and the log says that 2
    bytes were transmitted. *)
Theorem C1_reply_stops_at_first_nul :
  let t := fst (anerd_server DEFAULT_SIZE DEFAULT_PORT setup_ok [datagram_AB]) in
  received t = [2]
  /\ sent t = [Some []]
  /\ diagnostics t = [EvSyslog (Received 2 (sin_addr peer_X) (sin_port peer_X));
                      EvSyslog (Transmit 2 (sin_addr peer_X) (sin_port peer_X))].
Proof. vm_compute. repeat split; reflexivity. Qed.

(** C3 (evaluated at failing inputs).  Claim: the store
    [data[bytes_read] = 0] stays inside the [size] bytes of the buffer.  A
    datagram that fills the buffer makes [recvfrom] return [size], and the
    store goes to index [size], one past the last cell; a failing [recvfrom]
    returns -1, and the store goes to index -1. *)
Theorem C3_terminating_store_leaves_buffer :
  let full := fst (anerd_server DEFAULT_SIZE DEFAULT_PORT setup_ok [datagram_full]) in
  let lost := fst (anerd_server DEFAULT_SIZE DEFAULT_PORT setup_ok [datagram_lost]) in
  (received full = [DEFAULT_SIZE] /\ stores full = [DEFAULT_SIZE]
   /\ in_bounds DEFAULT_SIZE DEFAULT_SIZE = false)
  /\ (received lost = [-1] /\ stores lost = [-1]
      /\ in_bounds DEFAULT_SIZE (-1) = false).
Proof. vm_compute. repeat split; reflexivity. Qed.

(** ** The responder: the salt *)

(** The salt a turn appends, and the timestamp it leaves behind. *)
Lemma iteration_salt sock size x st :
  exists count bytes reply payload peer,
    pool_view (fst (server_iteration sock size x st))
    = [EvFwrite 1 count bytes;
       EvFwrite sizeof_double 1
         (double_bytes (int_mul (last_usec st) (usec_stamp (clock x))));
       EvFflush; EvFread 1 count reply; EvSendto sock payload peer (sendto_ret x)].
Proof.
  unfold server_iteration.
  destruct (arrival x) as [[dgram from]|]; simpl; by repeat eexists.
Qed.

Lemma last_usec_after sock size x st :
  last_usec (state_after sock size x st) = usec_stamp (clock x).
Proof.
  unfold state_after, server_iteration.
  by destruct (arrival x) as [[dgram from]|].
Qed.

(** From the second turn on the salt is [salt_of] the clock readings of two
    successive turns. *)
Lemma salt_of_successive_turns sock size x0 x st :
  exists count bytes reply payload peer,
    pool_view (fst (server_iteration sock size x (state_after sock size x0 st)))
    = [EvFwrite 1 count bytes;
       EvFwrite sizeof_double 1 (double_bytes (salt_of (clock x0) (clock x)));
       EvFflush; EvFread 1 count reply; EvSendto sock payload peer (sendto_ret x)].
Proof.
  unfold salt_of. rewrite <- (last_usec_after sock size x0 st). apply iteration_salt.
Qed.

(** C4 (as stated, refuted).  Two different pairs of clock readings with the
    same salt: a reading with [tv_usec = 0] makes the product 0 whatever the
    other reading is. *)
Lemma C4_salt_not_injective :
  ~ (forall a b c d : timeval, (a, b) <> (c, d) -> salt_of a b <> salt_of c d).
Proof.
  intros Hinj.
  apply (Hinj {| tv_sec := 0; tv_usec := 0 |} {| tv_sec := 0; tv_usec := 1 |}
              {| tv_sec := 0; tv_usec := 0 |} {| tv_sec := 0; tv_usec := 2 |}).
  - intros [= ]. 
  - reflexivity.
Qed.

(** C4 (amended).  The salt written to the pool in a turn is the [int]
    product of the stored timestamp and the timestamp of this turn, the
    stored timestamp becomes the timestamp of this turn, and the product
    does not depend on the order of the two timestamps. *)
Theorem C4_salt_is_product_of_timestamps sock size x st :
  let this_usec := usec_stamp (clock x) in
  let salt := int_mul (last_usec st) this_usec in
  (exists count bytes reply payload peer,
      pool_view (fst (server_iteration sock size x st))
      = [EvFwrite 1 count bytes; EvFwrite sizeof_double 1 (double_bytes salt);
         EvFflush; EvFread 1 count reply; EvSendto sock payload peer (sendto_ret x)])
  /\ last_usec (state_after sock size x st) = this_usec
  /\ salt = int_mul this_usec (last_usec st).
Proof.
  intros this_usec salt. split; [|split].
  - apply iteration_salt.
  - apply last_usec_after.
  - apply int_mul_comm.
Qed.

(** ** The responder: order of the pool traffic *)




(** C7.  A turn that received n bytes appends exactly these n bytes and
    then the 8 bytes of the salt, and flushes, before it reads the reply
    bytes back. *)
Theorem C7_append_is_datagram_then_salt sock size x st dgram from :
  arrival x = Some (dgram, from) ->
  0 <= size < 2 ^ 31 ->
  length (data st) = Z.to_nat size ->
  let got := take (Z.to_nat size) dgram in
  let n := Z.of_nat (length got) in
  let salt := double_bytes (int_mul (last_usec st) (usec_stamp (clock x))) in
  exists reply payload,
    received (fst (server_iteration sock size x st)) = [n]
    /\ pool_view (fst (server_iteration sock size x st))
       = [EvFwrite 1 n got; EvFwrite sizeof_double 1 salt; EvFflush;
          EvFread 1 n reply; EvSendto sock payload from (sendto_ret x)]
    /\ Z.of_nat (length salt) = 8.
Proof.
  intros Harr Hsize Hlen got n salt.
  rewrite (server_iteration_received sock size x st dgram from Harr Hsize Hlen).
  do 2 eexists. split; [reflexivity|]. split; [reflexivity|].
  apply length_double_bytes.
Qed.

Lemma C7_append_is_datagram_then_salt_witness :
  exists reply payload,
    received (fst (server_iteration 3 4 datagram_AB
                     {| data := repeat NUL 4; last_usec := 7; client_addr := peer_X |}))
    = [2]
    /\ pool_view (fst (server_iteration 3 4 datagram_AB
                        {| data := repeat NUL 4; last_usec := 7; client_addr := peer_X |}))
       = [EvFwrite 1 2 [x41; x42];
          EvFwrite sizeof_double 1
            (double_bytes (int_mul 7 (usec_stamp (clock datagram_AB))));
          EvFflush; EvFread 1 2 reply; EvSendto 3 payload peer_X 0]
    /\ Z.of_nat (length (double_bytes (int_mul 7 (usec_stamp (clock datagram_AB))))) = 8.
Proof.
  apply (C7_append_is_datagram_then_salt 3 4 datagram_AB
           {| data := repeat NUL 4; last_usec := 7; client_addr := peer_X |}
           [x41; x42] peer_X).
  - reflexivity.
  - lia.
  - reflexivity.
Defined.

(** ** The responder: a failing [sendto] *)

(** C6 (as stated, refuted).  A [sendto] that fails leaves no mark on the
    logging and error path: the responder logs the same two records as for a
    [sendto] that succeeds, the second saying that 2 bytes were transmitted,
    and does not call [perror]. *)
Lemma C6_send_failure_not_reported :
  let failed := fst (anerd_server DEFAULT_SIZE DEFAULT_PORT setup_ok [datagram_AB_unsent]) in
  let fine := fst (anerd_server DEFAULT_SIZE DEFAULT_PORT setup_ok [datagram_AB_sent]) in
  sendto_ret datagram_AB_unsent = -1
  /\ sent failed = [Some [x5a; x17]]
  /\ diagnostics failed
     = [EvSyslog (Received 2 (sin_addr peer_X) (sin_port peer_X));
        EvSyslog (Transmit 2 (sin_addr peer_X) (sin_port peer_X))]
  /\ diagnostics failed = diagnostics fine.
Proof. vm_compute. repeat split; reflexivity. Qed.

(** C6 (amended).  In a turn that received a datagram the return value of
    [sendto] is ignored: whatever it is, the turn logs the same two records
    and ends in the same state; nothing is passed to [perror]; [sendto] is
    called once; the process does not exit; and the loop goes on with the
    next datagram. *)
Theorem C6_send_failure_is_ignored sock size x xs st dgram from :
  arrival x = Some (dgram, from) ->
  let t := fst (server_iteration sock size x st) in
  let st' := state_after sock size x st in
  (forall r,
      diagnostics (fst (server_iteration sock size (with_sendto_ret r x) st))
      = diagnostics t
      /\ state_after sock size (with_sendto_ret r x) st = st')
  /\ (exists n,
         diagnostics t
         = [EvSyslog (Received n (sin_addr from) (ntohs (sin_port from)));
            EvSyslog (Transmit n (sin_addr from) (ntohs (sin_port from)))])
  /\ (exists payload, sent t = [payload])
  /\ exits t = []
  /\ server_loop sock size (x :: xs) st
     = (t ++ fst (server_loop sock size xs st'), Blocked).
Proof.
  intros Harr t st'. repeat split.
  - subst t. unfold server_iteration, with_sendto_ret. cbn [arrival clock pool_out].
    by rewrite Harr.
  - subst st'. unfold state_after, server_iteration, with_sendto_ret.
    cbn [arrival clock pool_out]. by rewrite Harr.
  - subst t. unfold server_iteration. rewrite Harr. by eexists.
  - subst t. unfold server_iteration. rewrite Harr. by eexists.
  - subst t. unfold server_iteration. by rewrite Harr.
  - rewrite server_loop_cons. by rewrite server_loop_blocked.
Qed.

Lemma C6_send_failure_is_ignored_witness :
  let st := {| data := repeat NUL 4; last_usec := 7; client_addr := peer_X |} in
  let t := fst (server_iteration 3 4 datagram_AB_unsent st) in
  let st' := state_after 3 4 datagram_AB_unsent st in
  (forall r,
      diagnostics (fst (server_iteration 3 4 (with_sendto_ret r datagram_AB_unsent) st))
      = diagnostics t
      /\ state_after 3 4 (with_sendto_ret r datagram_AB_unsent) st = st')
  /\ (exists n,
         diagnostics t
         = [EvSyslog (Received n (sin_addr peer_X) (ntohs (sin_port peer_X)));
            EvSyslog (Transmit n (sin_addr peer_X) (ntohs (sin_port peer_X)))])
  /\ (exists payload, sent t = [payload])
  /\ exits t = []
  /\ server_loop 3 4 [datagram_AB_unsent; datagram_AB] st
     = (t ++ fst (server_loop 3 4 [datagram_AB] st'), Blocked).
Proof.
  apply (C6_send_failure_is_ignored 3 4 datagram_AB_unsent [datagram_AB]
           {| data := repeat NUL 4; last_usec := 7; client_addr := peer_X |}
           [x41; x42] peer_X).
  reflexivity.
Defined.

(** ** The donor *)

Section Client.

Variables sock size : Z.
Variable server_addr : sockaddr_in.
Variable interval : Z.

Lemma client_loop_stopped xs cells :
  interval <= 0 ->
  client_loop sock size server_addr interval xs cells = ([], Val cells).
Proof.
  intros H. destruct xs; simpl; destruct (Z.ltb_spec 0 interval); (lia || done).
Qed.

Lemma client_cycle_val x cells :
  client_cycle sock size server_addr interval x cells
  = (fst (client_cycle sock size server_addr interval x cells),
     Val (write_cells (read_cells (pool_read x) (to_size_t size)) cells)).
Proof.
  unfold client_cycle.
  by destruct (0 <? Z.of_nat (length (read_cells (pool_read x) (to_size_t size)))).
Qed.

Lemma client_loop_cons x xs cells :
  0 < interval ->
  let cells' := write_cells (read_cells (pool_read x) (to_size_t size)) cells in
  client_loop sock size server_addr interval (x :: xs) cells
  = (fst (client_cycle sock size server_addr interval x cells)
       ++ fst (client_loop sock size server_addr interval xs cells'),
     snd (client_loop sock size server_addr interval xs cells')).
Proof.
  intros H cells'. simpl. destruct (Z.ltb_spec 0 interval); [|lia].
  rewrite client_cycle_val. unfold bind. fold cells'.
  by destruct (client_loop sock size server_addr interval xs cells').
Qed.

End Client.

(** With a buffer and a stream the donor reaches its loop, whatever [socket]
    and [setsockopt] returned, with the zeroed buffer and the broadcast
    address for [port]. *)
Lemma anerd_client_enters_loop size port interval env xs :
  c_calloc env = true -> c_fopen env = true ->
  let sock := c_socket env in
  let loop := client_loop sock size (broadcast_addr port) interval xs
                (repeat NUL (Z.to_nat size)) in
  let setup :=
    [EvCalloc (to_size_t size) true; EvSocket sock]
      ++ (if sock =? -1 then [EvPerror "socket"] else [])
      ++ [EvSetsockopt sock (c_setsockopt env)]
      ++ (if c_setsockopt env =? -1 then [EvPerror "setsockopt (SO_BROADCAST)"] else [])
      ++ [EvFopen "r" true] in
  let cleanup :=
    match snd loop with
    | Val _ => [EvClose sock; EvFree; EvFclose]
    | _ => []
    end in
  fst (anerd_client size port interval env xs) = setup ++ fst loop ++ cleanup.
Proof.
  intros Hcalloc Hfopen sock loop setup cleanup.
  subst setup cleanup. unfold anerd_client. rewrite Hcalloc, Hfopen.
  fold sock. fold loop.
  destruct loop as [t [cells|status|]];
    destruct (sock =? -1), (c_setsockopt env =? -1);
    cbn [bind emit ret app fst snd]; by rewrite ?app_nil_r.
Qed.

(** A failing [fopen] or [calloc] ends the donor with status 1 before the
    loop. *)
Lemma client_fopen_failure_is_fatal size port interval env xs :
  c_calloc env = false \/ c_fopen env = false ->
  snd (anerd_client size port interval env xs) = Halted 1
  /\ pool_view (fst (anerd_client size port interval env xs)) = []
  /\ exits (fst (anerd_client size port interval env xs)) = [1].
Proof.
  unfold anerd_client. destruct env as [cal so sso fo]. simpl.
  intros [-> | ->]; [done|].
  by destruct cal, (so =? -1), (sso =? -1).
Qed.

(** C2 (evaluated at failing inputs).  Claim: a failure of [socket], of
    [setsockopt] or of [fopen] makes the donor exit with a non-zero status
    before the broadcast loop.  After a failing [socket], and after a
    failing [setsockopt], the donor calls [perror] and goes on: it does not
    exit, enters the loop, and calls [sendto]. *)
Theorem C2_socket_failure_not_fatal :
  let no_socket :=
    anerd_client DEFAULT_SIZE DEFAULT_PORT DEFAULT_INTERVAL socket_fails [cycle_full] in
  let no_broadcast :=
    anerd_client DEFAULT_SIZE DEFAULT_PORT DEFAULT_INTERVAL setsockopt_fails [cycle_full] in
  (snd no_socket = Blocked
   /\ exits (fst no_socket) = []
   /\ diagnostics (fst no_socket)
      = [EvPerror "socket"; EvPerror "setsockopt (SO_BROADCAST)";
         EvSyslog (Donated 64 INADDR_BROADCAST DEFAULT_PORT)]
   /\ sent (fst no_socket) = [Some (repeat x5a 64)]
   /\ sleeps (fst no_socket) = [DEFAULT_INTERVAL])
  /\ (snd no_broadcast = Blocked
      /\ exits (fst no_broadcast) = []
      /\ diagnostics (fst no_broadcast)
         = [EvPerror "setsockopt (SO_BROADCAST)";
            EvSyslog (Donated 64 INADDR_BROADCAST DEFAULT_PORT)]
      /\ sent (fst no_broadcast) = [Some (repeat x5a 64)]
      /\ sleeps (fst no_broadcast) = [DEFAULT_INTERVAL]).
Proof. vm_compute. repeat split; reflexivity. Qed.

(** C8.  With [interval <= 0] the donor does not loop: whatever the set-up
    calls return and whatever the pool would deliver, it reads nothing from
    the pool, sends nothing, does not sleep, and ends at once, with
    [return 0] or, after a failing [calloc] or [fopen], with [exit(1)]. *)
Theorem C8_nonpositive_interval_ends_at_once size port interval env xs :
  interval <= 0 ->
  let run := anerd_client size port interval env xs in
  pool_view (fst run) = []
  /\ sent (fst run) = []
  /\ sleeps (fst run) = []
  /\ (snd run = Val 0 \/ snd run = Halted 1)
  /\ (c_calloc env = true -> c_fopen env = true -> snd run = Val 0).
Proof.
  intros Hint run. subst run. unfold anerd_client.
  rewrite client_loop_stopped by done.
  destruct env as [cal so sso fo]. simpl.
  destruct cal, (so =? -1), (sso =? -1), fo; simpl; repeat split; auto; done.
Qed.

Lemma C8_nonpositive_interval_ends_at_once_witness :
  let run := anerd_client DEFAULT_SIZE DEFAULT_PORT 0 setsockopt_fails [cycle_full] in
  pool_view (fst run) = []
  /\ sent (fst run) = []
  /\ sleeps (fst run) = []
  /\ (snd run = Val 0 \/ snd run = Halted 1)
  /\ (c_calloc setsockopt_fails = true -> c_fopen setsockopt_fails = true
      -> snd run = Val 0).
Proof.
  apply (C8_nonpositive_interval_ends_at_once
           DEFAULT_SIZE DEFAULT_PORT 0 setsockopt_fails [cycle_full]).
  lia.
Defined.

(** C9.  A cycle in which [fread] returns 0 calls [perror], sends nothing,
    sleeps for [interval] seconds, leaves the buffer as it was, and is
    followed by the next cycle. *)
Theorem C9_empty_read_skips_broadcast sock size server_addr interval x xs cells :
  0 < interval ->
  read_cells (pool_read x) (to_size_t size) = [] ->
  client_cycle sock size server_addr interval x cells
  = ([EvFread 1 (to_size_t size) []; EvPerror "fread"; EvSleep interval], Val cells)
  /\ sent (fst (client_cycle sock size server_addr interval x cells)) = []
  /\ client_loop sock size server_addr interval (x :: xs) cells
     = ([EvFread 1 (to_size_t size) []; EvPerror "fread"; EvSleep interval]
          ++ fst (client_loop sock size server_addr interval xs cells),
        snd (client_loop sock size server_addr interval xs cells)).
Proof.
  intros Hint Hread.
  assert (Hcycle : client_cycle sock size server_addr interval x cells
                   = ([EvFread 1 (to_size_t size) []; EvPerror "fread"; EvSleep interval],
                      Val cells)).
  { unfold client_cycle. rewrite Hread. reflexivity. }
  split; [exact Hcycle|]. split.
  - by rewrite Hcycle.
  - rewrite client_loop_cons by done. rewrite Hcycle, Hread. reflexivity.
Qed.

Lemma C9_empty_read_skips_broadcast_witness :
  client_cycle 3 64 (broadcast_addr DEFAULT_PORT) 60 cycle_empty (repeat NUL 64)
  = ([EvFread 1 (to_size_t 64) []; EvPerror "fread"; EvSleep 60], Val (repeat NUL 64))
  /\ sent (fst (client_cycle 3 64 (broadcast_addr DEFAULT_PORT) 60 cycle_empty
                  (repeat NUL 64))) = []
  /\ client_loop 3 64 (broadcast_addr DEFAULT_PORT) 60 [cycle_empty; cycle_short]
       (repeat NUL 64)
     = ([EvFread 1 (to_size_t 64) []; EvPerror "fread"; EvSleep 60]
          ++ fst (client_loop 3 64 (broadcast_addr DEFAULT_PORT) 60 [cycle_short]
                    (repeat NUL 64)),
        snd (client_loop 3 64 (broadcast_addr DEFAULT_PORT) 60 [cycle_short]
               (repeat NUL 64))).
Proof.
  apply (C9_empty_read_skips_broadcast 3 64 (broadcast_addr DEFAULT_PORT) 60
           cycle_empty [cycle_short] (repeat NUL 64)).
  - lia.
  - reflexivity.
Defined.

(** C10.  A cycle in which [fread] stores at least one byte hands [sendto]
    the whole buffer, [size] bytes, for the broadcast address and the
    configured port: the bytes just read followed by what the buffer held
    behind them. *)
Theorem C10_broadcast_is_whole_buffer sock size port interval x cells :
  0 <= size < 2 ^ 31 ->
  length cells = Z.to_nat size ->
  let got := read_cells (pool_read x) (to_size_t size) in
  got <> [] ->
  let payload := got ++ drop (length got) cells in
  client_cycle sock size (broadcast_addr port) interval x cells
  = ([EvFread 1 size got;
      EvSyslog (Donated size INADDR_BROADCAST (htons port));
      EvSendto sock (Some payload) (broadcast_addr port) (bcast_ret x);
      EvSleep interval],
     Val payload)
  /\ Z.of_nat (length payload) = size
  /\ sin_addr (broadcast_addr port) = INADDR_BROADCAST
  /\ (0 <= port < 2 ^ 16 -> sin_port (broadcast_addr port) = port).
Proof.
  intros Hsize Hlen got Hgot payload.
  assert (Hfits : (length got <= length cells)%nat).
  { subst got. rewrite length_read_cells, to_size_t_id by lia. lia. }
  assert (Hwrite : write_cells got cells = payload).
  { by apply write_cells_fits. }
  assert (Hpayload : Z.of_nat (length payload) = size).
  { subst payload. rewrite length_app, length_drop. lia. }
  split; [|split; [exact Hpayload|split]].
  - assert (Hpos : (0 <? Z.of_nat (length got)) = true).
    { apply Z.ltb_lt. destruct got; [done|simpl; lia]. }
    unfold client_cycle. fold got. rewrite Hwrite, Hpos.
    rewrite to_size_t_id by lia.
    rewrite read_cells_all by lia.
    cbn [sin_port sin_addr broadcast_addr]. unfold ntohs, htons.
    rewrite Z.mod_mod by lia. reflexivity.
  - reflexivity.
  - intros Hport. simpl. unfold htons. apply Z.mod_small. lia.
Qed.

Lemma C10_broadcast_is_whole_buffer_witness :
  client_cycle 3 64 (broadcast_addr DEFAULT_PORT) 60 cycle_short (repeat NUL 64)
  = ([EvFread 1 64 (read_cells (pool_read cycle_short) (to_size_t 64));
      EvSyslog (Donated 64 INADDR_BROADCAST (htons DEFAULT_PORT));
      EvSendto 3
        (Some (read_cells (pool_read cycle_short) (to_size_t 64)
               ++ drop (length (read_cells (pool_read cycle_short) (to_size_t 64)))
                    (repeat NUL 64)))
        (broadcast_addr DEFAULT_PORT) (bcast_ret cycle_short);
      EvSleep 60],
     Val (read_cells (pool_read cycle_short) (to_size_t 64)
          ++ drop (length (read_cells (pool_read cycle_short) (to_size_t 64)))
               (repeat NUL 64)))
  /\ Z.of_nat (length (read_cells (pool_read cycle_short) (to_size_t 64)
                       ++ drop (length (read_cells (pool_read cycle_short) (to_size_t 64)))
                            (repeat NUL 64))) = 64
  /\ sin_addr (broadcast_addr DEFAULT_PORT) = INADDR_BROADCAST
  /\ (0 <= DEFAULT_PORT < 2 ^ 16 -> sin_port (broadcast_addr DEFAULT_PORT) = DEFAULT_PORT).
Proof.
  apply (C10_broadcast_is_whole_buffer 3 64 DEFAULT_PORT 60 cycle_short (repeat NUL 64)).
  - lia.
  - reflexivity.
  - vm_compute. discriminate.
Defined.

(** ** Further properties of the responder *)

Lemma c_string_until_nul (front rest : list byte) :
  c_string (front ++ NUL :: rest) = Some (until_nul front).
Proof.
  unfold c_string. induction front as [|b front IH]; simpl; [done|].
  destruct (Byte.eqb b NUL); [done|].
  destruct (strlen (front ++ NUL :: rest)) as [k|]; simpl in *; [|done].
  injection IH as IH. by rewrite IH.
Qed.

Lemma until_nul_length (cells : list byte) : (length (until_nul cells) <= length cells)%nat.
Proof.
  induction cells as [|b rest IH]; simpl; [done|].
  destruct (Byte.eqb b NUL); simpl; lia.
Qed.

(** The buffer after a turn that left room behind the datagram: the bytes
    read from the pool, what is left of the datagram behind them, and the
    NUL of the terminating store. *)
Lemma buffer_after_turn (cells dgram reply : list byte) :
  (length dgram < length cells)%nat ->
  (length reply <= length dgram)%nat ->
  exists rest,
    write_cells reply
      (store_char (write_cells dgram cells) (Z.of_nat (length dgram)) NUL)
    = (reply ++ drop (length reply) dgram) ++ NUL :: rest.
Proof.
  intros Hroom Hreply.
  rewrite (write_cells_fits dgram cells) by lia.
  assert (Hstore : store_char (dgram ++ drop (length dgram) cells)
                     (Z.of_nat (length dgram)) NUL
                   = dgram ++ NUL :: drop (S (length dgram)) cells).
  { unfold store_char.
    destruct (in_bounds _ _) eqn:Hin.
    - rewrite Nat2Z.id. rewrite insert_app_r_alt by lia.
      rewrite Nat.sub_diag.
      destruct (drop (length dgram) cells) as [|c tail] eqn:Hdrop.
      + apply (f_equal length) in Hdrop. rewrite length_drop in Hdrop. simpl in Hdrop. lia.
      + simpl. do 2 f_equal.
        replace (S (length dgram)) with (length dgram + 1)%nat by lia.
        rewrite <- drop_drop, Hdrop. done.
    - apply in_bounds_false in Hin.
      rewrite length_app, length_drop in Hin. lia. }
  rewrite Hstore.
  rewrite write_cells_fits by (rewrite length_app; simpl; lia).
  rewrite drop_app_le by lia.
  exists (drop (S (length dgram)) cells). by rewrite <- app_assoc.
Qed.

Lemma reply_until_nul sock size x st dgram from :
  arrival x = Some (dgram, from) ->
  0 <= size < 2 ^ 31 ->
  length (data st) = Z.to_nat size ->
  (length dgram < Z.to_nat size)%nat ->
  let reply := take (length dgram) (pool_out x) in
  sent (fst (server_iteration sock size x st))
  = [Some (until_nul (reply ++ drop (length reply) dgram))].
Proof.
  intros Harr Hsize Hlen Hroom reply.
  rewrite (server_iteration_received sock size x st dgram from Harr Hsize Hlen).
  cbn [fst sent omap list_omap]. simpl.
  rewrite (take_ge dgram) by lia. fold reply.
  destruct (buffer_after_turn (data st) dgram reply) as [rest ->].
  - lia.
  - subst reply. rewrite length_take. lia.
  - by rewrite c_string_until_nul.
Qed.

Lemma iteration_counts sock size x st :
  let t := fst (server_iteration sock size x st) in
  length (received t) = 1%nat /\ length (sent t) = 1%nat
  /\ exits t = [] /\ perrors t = []
  /\ length (diagnostics t) = 2%nat.
Proof.
  unfold server_iteration. by destruct (arrival x) as [[dgram from]|].
Qed.

(** X1.  When [socket], [fopen], [calloc] or [bind] fails, the responder
    calls [perror] once, for the first call that failed, and leaves with
    [exit(1)]: it never calls [recvfrom] and never touches the pool. *)
Theorem X1_responder_setup_failure_is_fatal size port env xs :
  s_socket env = -1 \/ s_fopen env = false \/ s_calloc env = false \/ s_bind env = -1 ->
  let run := anerd_server size port env xs in
  snd run = Halted 1
  /\ exits (fst run) = [1]
  /\ perrors (fst run)
     = [if s_socket env =? -1 then "Socket"
        else if negb (s_fopen env) then "fopen"
        else if negb (s_calloc env) then "calloc"
        else "Bind"]
  /\ received (fst run) = []
  /\ pool_view (fst run) = [].
Proof.
  intros H run. subst run. unfold anerd_server.
  destruct env as [so fo cal bi tv0 addr0]. cbn [s_socket s_fopen s_calloc s_bind] in *.
  destruct (Z.eqb_spec so (-1)) as [|Hso]; [done|].
  destruct fo; [|done]. destruct cal; [|done].
  destruct (Z.eqb_spec bi (-1)) as [|Hbi]; [done|].
  by destruct H as [?|[?|[?|?]]].
Qed.

Lemma X1_responder_setup_failure_is_fatal_witness :
  let env := {| s_socket := 3; s_fopen := true; s_calloc := true; s_bind := -1;
                s_clock := {| tv_sec := 0; tv_usec := 0 |};
                s_client_addr := peer_X |} in
  let run := anerd_server DEFAULT_SIZE DEFAULT_PORT env [datagram_AB] in
  snd run = Halted 1
  /\ exits (fst run) = [1]
  /\ perrors (fst run) = ["Bind"]
  /\ received (fst run) = []
  /\ pool_view (fst run) = [].
Proof.
  apply (X1_responder_setup_failure_is_fatal DEFAULT_SIZE DEFAULT_PORT
           {| s_socket := 3; s_fopen := true; s_calloc := true; s_bind := -1;
              s_clock := {| tv_sec := 0; tv_usec := 0 |};
              s_client_addr := peer_X |} [datagram_AB]).
  right. right. right. reflexivity.
Defined.

(** X2.  Once the set-up has succeeded the responder never leaves its loop:
    whatever arrives and whatever the calls inside the loop return, it does
    not return and does not exit, and for every datagram it calls
    [recvfrom] once, [sendto] once, writes two log records and never calls
    [perror]. *)
Theorem X2_responder_never_leaves_loop size port env xs :
  s_socket env <> -1 -> s_fopen env = true -> s_calloc env = true -> s_bind env <> -1 ->
  let run := anerd_server size port env xs in
  snd run = Blocked
  /\ exits (fst run) = []
  /\ perrors (fst run) = []
  /\ length (received (fst run)) = length xs
  /\ length (sent (fst run)) = length xs
  /\ length (diagnostics (fst run)) = (2 * length xs)%nat.
Proof.
  intros Hsock Hfopen Hcalloc Hbind run. subst run.
  rewrite (anerd_server_enters_loop size port env xs Hsock Hfopen Hcalloc Hbind).
  cbn [fst snd]. rewrite server_loop_blocked.
  unfold exits, perrors, received, sent, diagnostics.
  rewrite !omap_app, filter_app, !length_app. cbn [omap list_omap app length filter].
  generalize (initial_state size env) as st.
  induction xs as [|x xs IH]; intros st; [done|].
  rewrite server_loop_cons. cbn [fst].
  rewrite !omap_app, filter_app, !length_app.
  destruct (iteration_counts (s_socket env) size x st) as (Hr & Hs & He & Hp & Hd).
  destruct (IH (state_after (s_socket env) size x st)) as (_ & IHe & IHp & IHr & IHs & IHd).
  unfold exits, perrors, received, sent, diagnostics in *.
  rewrite He, Hp, Hr, Hs, Hd. simpl in *.
  rewrite IHe, IHp, IHr, IHs. repeat split; try done. lia.
Qed.

Lemma X2_responder_never_leaves_loop_witness :
  let run := anerd_server DEFAULT_SIZE DEFAULT_PORT setup_ok
               [datagram_AB; datagram_lost; datagram_full] in
  snd run = Blocked
  /\ exits (fst run) = []
  /\ perrors (fst run) = []
  /\ length (received (fst run)) = 3%nat
  /\ length (sent (fst run)) = 3%nat
  /\ length (diagnostics (fst run)) = 6%nat.
Proof.
  apply (X2_responder_never_leaves_loop DEFAULT_SIZE DEFAULT_PORT setup_ok
           [datagram_AB; datagram_lost; datagram_full]).
  - vm_compute. discriminate.
  - reflexivity.
  - reflexivity.
  - vm_compute. discriminate.
Defined.

(** X3.  With room left behind the datagram and a pool that delivers all
    the bytes asked for, the reply consists of the pool bytes in front of
    the first NUL byte among them: it is as long as the datagram exactly
    when the pool bytes contain no NUL, and shorter otherwise. *)
Theorem X3_reply_is_pool_bytes_until_nul sock size x st dgram from :
  arrival x = Some (dgram, from) ->
  0 <= size < 2 ^ 31 ->
  length (data st) = Z.to_nat size ->
  (length dgram < Z.to_nat size)%nat ->
  (length dgram <= length (pool_out x))%nat ->
  let reply := take (length dgram) (pool_out x) in
  sent (fst (server_iteration sock size x st)) = [Some (until_nul reply)]
  /\ (length (until_nul reply) <= length dgram)%nat
  /\ (length (until_nul reply) = length dgram <-> NUL ∉ reply).
Proof.
  intros Harr Hsize Hlen Hroom Hfull reply.
  assert (Hreply : length reply = length dgram).
  { subst reply. rewrite length_take. lia. }
  split; [|split].
  - rewrite (reply_until_nul sock size x st dgram from Harr Hsize Hlen Hroom).
    fold reply. rewrite Hreply, drop_all, app_nil_r. done.
  - rewrite <- Hreply. apply until_nul_length.
  - rewrite <- Hreply. clear. induction reply as [|b reply IH]; simpl.
    + split; [intros _; apply not_elem_of_nil|done].
    + destruct (Byte.eqb b NUL) eqn:Hb; simpl.
      * apply Byte.byte_dec_bl in Hb. subst b. split; [lia|].
        intros Hnot. exfalso. apply Hnot. left.
      * rewrite not_elem_of_cons. split.
        -- intros Hlen. split; [intros <-; discriminate Hb|]. apply IH. lia.
        -- intros [_ Hnot]. f_equal. by apply IH.
Qed.

Lemma X3_reply_is_pool_bytes_until_nul_witness :
  let st := {| data := repeat NUL 4; last_usec := 7; client_addr := peer_X |} in
  let reply := take (length [x41; x42]) (pool_out datagram_AB) in
  sent (fst (server_iteration 3 4 datagram_AB st)) = [Some (until_nul reply)]
  /\ (length (until_nul reply) <= length [x41; x42])%nat
  /\ (length (until_nul reply) = length [x41; x42] <-> NUL ∉ reply).
Proof.
  apply (X3_reply_is_pool_bytes_until_nul 3 4 datagram_AB
           {| data := repeat NUL 4; last_usec := 7; client_addr := peer_X |}
           [x41; x42] peer_X).
  - reflexivity.
  - lia.
  - reflexivity.
  - simpl. lia.
  - simpl. lia.
Defined.

(** X4.  For a datagram shorter than the buffer: when the pool delivers
    no more bytes than the datagram had, the reply is taken from these
    bytes followed by the bytes of the datagram itself that [fread] did not
    overwrite, up to the first NUL byte; when the pool delivers nothing,
    the reply is the datagram of the peer up to its first NUL byte. *)
Theorem X4_short_read_echoes_datagram sock size x st dgram from :
  arrival x = Some (dgram, from) ->
  0 <= size < 2 ^ 31 ->
  length (data st) = Z.to_nat size ->
  (length dgram < Z.to_nat size)%nat ->
  (length (pool_out x) <= length dgram)%nat ->
  sent (fst (server_iteration sock size x st))
  = [Some (until_nul (pool_out x ++ drop (length (pool_out x)) dgram))]
  /\ (pool_out x = [] ->
      sent (fst (server_iteration sock size x st)) = [Some (until_nul dgram)]).
Proof.
  intros Harr Hsize Hlen Hroom Hshort.
  assert (Hsent : sent (fst (server_iteration sock size x st))
                  = [Some (until_nul (pool_out x ++ drop (length (pool_out x)) dgram))]).
  { rewrite (reply_until_nul sock size x st dgram from Harr Hsize Hlen Hroom).
    by rewrite take_ge by lia. }
  split; [exact Hsent|].
  intros Hnone. rewrite Hsent, Hnone. done.
Qed.

Lemma X4_short_read_echoes_datagram_witness :
  let st := {| data := repeat NUL 4; last_usec := 7; client_addr := peer_X |} in
  sent (fst (server_iteration 3 4 datagram_AB_dry st))
  = [Some (until_nul (pool_out datagram_AB_dry
                        ++ drop (length (pool_out datagram_AB_dry)) [x41; x42]))]
  /\ (pool_out datagram_AB_dry = [] ->
      sent (fst (server_iteration 3 4 datagram_AB_dry st))
      = [Some (until_nul [x41; x42])]).
Proof.
  apply (X4_short_read_echoes_datagram 3 4 datagram_AB_dry
           {| data := repeat NUL 4; last_usec := 7; client_addr := peer_X |}
           [x41; x42] peer_X).
  - reflexivity.
  - lia.
  - reflexivity.
  - simpl. lia.
  - simpl. lia.
Defined.

(** X5.  A failing [recvfrom] does not stop the turn.  The responder takes
    the -1 for a byte count: it stores the NUL at index -1, logs that -1
    bytes were received and transmitted, asks [fwrite] and [fread] for
    2^64 - 1 bytes, and sends a datagram to the peer of the datagram
    before. *)
Theorem X5_failed_receive_is_processed sock size x0 x st dgram from :
  arrival x0 = Some (dgram, from) ->
  arrival x = None ->
  let t := fst (server_iteration sock size x (state_after sock size x0 st)) in
  received t = [-1]
  /\ stores t = [-1]
  /\ in_bounds size (-1) = false
  /\ diagnostics t
     = [EvSyslog (Received (-1) (sin_addr from) (ntohs (sin_port from)));
        EvSyslog (Transmit (-1) (sin_addr from) (ntohs (sin_port from)))]
  /\ exists bytes salt reply payload,
       pool_view t
       = [EvFwrite 1 (2 ^ 64 - 1) bytes; EvFwrite sizeof_double 1 salt; EvFflush;
          EvFread 1 (2 ^ 64 - 1) reply; EvSendto sock payload from (sendto_ret x)].
Proof.
  intros Harr0 Harr t.
  assert (Hpeer : client_addr (state_after sock size x0 st) = from).
  { unfold state_after, server_iteration. by rewrite Harr0. }
  subst t. unfold server_iteration at 1 2 3 4. rewrite Harr, Hpeer.
  repeat split; try done. by repeat eexists.
Qed.

Lemma X5_failed_receive_is_processed_witness :
  let st := {| data := repeat NUL 4; last_usec := 7; client_addr := peer_X |} in
  let t := fst (server_iteration 3 4 datagram_lost (state_after 3 4 datagram_AB st)) in
  received t = [-1]
  /\ stores t = [-1]
  /\ in_bounds 4 (-1) = false
  /\ diagnostics t
     = [EvSyslog (Received (-1) (sin_addr peer_X) (ntohs (sin_port peer_X)));
        EvSyslog (Transmit (-1) (sin_addr peer_X) (ntohs (sin_port peer_X)))]
  /\ exists bytes salt reply payload,
       pool_view t
       = [EvFwrite 1 (2 ^ 64 - 1) bytes; EvFwrite sizeof_double 1 salt; EvFflush;
          EvFread 1 (2 ^ 64 - 1) reply; EvSendto 3 payload peer_X (sendto_ret datagram_lost)].
Proof.
  apply (X5_failed_receive_is_processed 3 4 datagram_AB datagram_lost
           {| data := repeat NUL 4; last_usec := 7; client_addr := peer_X |}
           [x41; x42] peer_X).
  - reflexivity.
  - reflexivity.
Defined.

(** X6.  A datagram without bytes still stirs the pool: the responder
    appends the 8 bytes of the salt and nothing else, reads nothing back,
    and answers with a datagram without bytes; the terminating store goes
    to index 0, inside the buffer. *)
Theorem X6_empty_datagram sock size x st from :
  arrival x = Some ([], from) ->
  0 < size < 2 ^ 31 ->
  length (data st) = Z.to_nat size ->
  let t := fst (server_iteration sock size x st) in
  let salt := double_bytes (int_mul (last_usec st) (usec_stamp (clock x))) in
  received t = [0]
  /\ stores t = [0] /\ in_bounds size 0 = true
  /\ pool_view t
     = [EvFwrite 1 0 []; EvFwrite sizeof_double 1 salt; EvFflush;
        EvFread 1 0 []; EvSendto sock (Some []) from (sendto_ret x)].
Proof.
  intros Harr Hsize Hlen t salt. subst t.
  rewrite (server_iteration_received sock size x st [] from Harr ltac:(lia) Hlen).
  rewrite take_nil. cbn [length Z.of_nat take].
  destruct (data st) as [|c cells] eqn:Hdata; [simpl in Hlen; lia|].
  repeat split; try done.
  apply in_bounds_true. lia.
Qed.

Lemma X6_empty_datagram_witness :
  let st := {| data := repeat NUL 4; last_usec := 7; client_addr := peer_X |} in
  let t := fst (server_iteration 3 4 datagram_empty st) in
  let salt := double_bytes (int_mul 7 (usec_stamp (clock datagram_empty))) in
  received t = [0]
  /\ stores t = [0] /\ in_bounds 4 0 = true
  /\ pool_view t
     = [EvFwrite 1 0 []; EvFwrite sizeof_double 1 salt; EvFflush;
        EvFread 1 0 []; EvSendto 3 (Some []) peer_X (sendto_ret datagram_empty)].
Proof.
  apply (X6_empty_datagram 3 4 datagram_empty
           {| data := repeat NUL 4; last_usec := 7; client_addr := peer_X |} peer_X).
  - reflexivity.
  - lia.
  - reflexivity.
Defined.

(** X7.  The timestamp of a clock reading depends on its microseconds
    only, and on them without loss: although [1000000 * tv_usec + tv_usec]
    does not fit an [int], two readings have the same timestamp exactly
    when they have the same [tv_usec], whatever their [tv_sec]. *)
Theorem X7_timestamp_is_microseconds (a b : timeval) :
  0 <= tv_usec a < 1000000 ->
  0 <= tv_usec b < 1000000 ->
  (usec_stamp a = usec_stamp b <-> tv_usec a = tv_usec b).
Proof.
  intros Ha Hb. split; [|unfold usec_stamp; by intros ->].
  unfold usec_stamp, to_int. intros Heq.
  replace (1000000 * tv_usec a + tv_usec a) with (1000001 * tv_usec a) in Heq by lia.
  replace (1000000 * tv_usec b + tv_usec b) with (1000001 * tv_usec b) in Heq by lia.
  assert (Hmod : (1000001 * tv_usec a + 2 ^ 31) mod 2 ^ 32
                 = (1000001 * tv_usec b + 2 ^ 31) mod 2 ^ 32) by lia.
  assert (Hdiv : (2 ^ 32 | 1000001 * (tv_usec a - tv_usec b))).
  { apply Z.mod_divide; [lia|].
    replace (1000001 * (tv_usec a - tv_usec b))
      with ((1000001 * tv_usec a + 2 ^ 31) - (1000001 * tv_usec b + 2 ^ 31)) by lia.
    rewrite Zminus_mod, Hmod, Z.sub_diag. reflexivity. }
  apply Z.gauss in Hdiv; [|reflexivity].
  destruct Hdiv as [k Hk]. nia.
Qed.

Lemma X7_timestamp_is_microseconds_witness :
  usec_stamp {| tv_sec := 1351600000; tv_usec := 250000 |}
  = usec_stamp {| tv_sec := 1351600077; tv_usec := 250000 |}
  <-> tv_usec {| tv_sec := 1351600000; tv_usec := 250000 |}
      = tv_usec {| tv_sec := 1351600077; tv_usec := 250000 |}.
Proof.
  apply (X7_timestamp_is_microseconds
           {| tv_sec := 1351600000; tv_usec := 250000 |}
           {| tv_sec := 1351600077; tv_usec := 250000 |}).
  - simpl. lia.
  - simpl. lia.
Defined.

(** ** Further properties of the donor *)

Lemma anerd_client_outcome size port interval env xs :
  c_calloc env = true -> c_fopen env = true ->
  snd (anerd_client size port interval env xs)
  = match snd (client_loop (c_socket env) size (broadcast_addr port) interval xs
                 (repeat NUL (Z.to_nat size))) with
    | Val _ => Val 0
    | Halted status => Halted status
    | Blocked => Blocked
    end.
Proof.
  intros Hcalloc Hfopen. unfold anerd_client. rewrite Hcalloc, Hfopen.
  destruct (client_loop (c_socket env) size (broadcast_addr port) interval xs
              (repeat NUL (Z.to_nat size))) as [t [cells|status|]];
    by destruct (c_socket env =? -1), (c_setsockopt env =? -1).
Qed.

(** One cycle, by what [fread] returned. *)
Lemma client_cycle_cases sock size server_addr interval x cells :
  let got := read_cells (pool_read x) (to_size_t size) in
  let cells' := write_cells got cells in
  fst (client_cycle sock size server_addr interval x cells)
  = if donates size x then
      [EvFread 1 (to_size_t size) got;
       EvSyslog (Donated size (sin_addr server_addr) (ntohs (sin_port server_addr)));
       EvSendto sock (Some (read_cells cells' (to_size_t size))) server_addr (bcast_ret x);
       EvSleep interval]
    else
      [EvFread 1 (to_size_t size) got; EvPerror "fread"; EvSleep interval].
Proof.
  unfold client_cycle, donates.
  by destruct (0 <? Z.of_nat (length (read_cells (pool_read x) (to_size_t size)))).
Qed.

Lemma client_loop_running sock size server_addr interval xs cells :
  0 < interval ->
  let run := client_loop sock size server_addr interval xs cells in
  snd run = Blocked
  /\ exits (fst run) = []
  /\ sleeps (fst run) = repeat interval (length xs)
  /\ length (sent (fst run)) = length (filter (fun x => donates size x) xs)
  /\ length (perrors (fst run))
     = length (filter (fun x => negb (donates size x)) xs).
Proof.
  intros Hint. revert cells. induction xs as [|x xs IH]; intros cells run; subst run.
  - simpl. destruct (Z.ltb_spec 0 interval); [done|lia].
  - rewrite client_loop_cons by done. cbn [fst snd].
    specialize (IH (write_cells (read_cells (pool_read x) (to_size_t size)) cells)).
    destruct IH as (IHr & IHe & IHs & IHn & IHp).
    unfold exits, sleeps, sent, perrors in *.
    rewrite !omap_app, !length_app, IHr, IHe, IHs, IHn, IHp.
    rewrite client_cycle_cases. rewrite !filter_cons.
    destruct (donates size x); simpl; repeat split; done.
Qed.

Lemma client_loop_broadcasts sock size server_addr interval xs cells :
  0 <= size < 2 ^ 31 ->
  length cells = Z.to_nat size ->
  let t := fst (client_loop sock size server_addr interval xs cells) in
  Forall (fun p => exists bytes, p = Some bytes /\ Z.of_nat (length bytes) = size) (sent t)
  /\ Forall (fun a => a = server_addr) (sent_to t).
Proof.
  intros Hsize. revert cells. induction xs as [|x xs IH]; intros cells Hlen t; subst t.
  - simpl. destruct (0 <? interval); split; constructor.
  - destruct (Z.ltb_spec 0 interval) as [Hint|Hint];
      [|rewrite client_loop_stopped by done; split; constructor].
    rewrite client_loop_cons by done. cbn [fst].
    set (cells' := write_cells (read_cells (pool_read x) (to_size_t size)) cells).
    assert (Hlen' : length cells' = Z.to_nat size).
    { subst cells'. by rewrite length_write_cells. }
    destruct (IH cells' Hlen') as [IHs IHa].
    unfold sent, sent_to in *. rewrite !omap_app, !Forall_app.
    rewrite client_cycle_cases. fold cells'.
    destruct (donates size x); simpl; repeat split; try done; try constructor; try done.
    exists (read_cells cells' (to_size_t size)). split; [done|].
    rewrite length_read_cells, to_size_t_id by lia. lia.
Qed.

(** X8.  A failing [calloc] or [fopen] ends the donor with [exit(1)]
    before its loop, without a read from the pool, a broadcast or a sleep;
    after a failing [fopen] the socket is closed first. *)
Theorem X8_donor_setup_failure_is_fatal size port interval env xs :
  c_calloc env = false \/ c_fopen env = false ->
  let run := anerd_client size port interval env xs in
  snd run = Halted 1
  /\ exits (fst run) = [1]
  /\ pool_view (fst run) = []
  /\ sleeps (fst run) = []
  /\ exists before,
       fst run
       = before ++ (if c_calloc env
                    then [EvPerror "fopen"; EvClose (c_socket env); EvExit 1]
                    else [EvPerror "calloc"; EvExit 1]).
Proof.
  intros H run. subst run. unfold anerd_client.
  destruct env as [cal so sso fo]. cbn [c_calloc c_socket c_setsockopt c_fopen] in *.
  destruct cal.
  - destruct H as [H | ->]; [done|].
    assert (Hbefore :
      exists before,
        before = [EvCalloc (to_size_t size) true; EvSocket so]
                   ++ (if so =? -1 then [EvPerror "socket"] else [])
                   ++ [EvSetsockopt so sso]
                   ++ (if sso =? -1 then [EvPerror "setsockopt (SO_BROADCAST)"] else [])
                   ++ [EvFopen "r" false]) by (by eexists).
    destruct Hbefore as [before Hbefore].
    destruct (so =? -1), (sso =? -1); cbn [bind emit ret exit app fst snd] in *;
      (split; [reflexivity|]); (split; [reflexivity|]); (split; [reflexivity|]);
      (split; [reflexivity|]); exists before; subst before; reflexivity.
  - split; [reflexivity|]. split; [reflexivity|]. split; [reflexivity|].
    split; [reflexivity|]. by exists [EvCalloc (to_size_t size) false].
Qed.

Lemma X8_donor_setup_failure_is_fatal_witness :
  let env := {| c_calloc := true; c_socket := 3; c_setsockopt := 0; c_fopen := false |} in
  let run := anerd_client DEFAULT_SIZE DEFAULT_PORT DEFAULT_INTERVAL env [cycle_full] in
  snd run = Halted 1
  /\ exits (fst run) = [1]
  /\ pool_view (fst run) = []
  /\ sleeps (fst run) = []
  /\ exists before,
       fst run = before ++ [EvPerror "fopen"; EvClose 3; EvExit 1].
Proof.
  apply (X8_donor_setup_failure_is_fatal DEFAULT_SIZE DEFAULT_PORT DEFAULT_INTERVAL
           {| c_calloc := true; c_socket := 3; c_setsockopt := 0; c_fopen := false |}
           [cycle_full]).
  right. reflexivity.
Defined.

(** X9.  With a buffer, a stream and [interval > 0] the donor never leaves
    its loop, whatever [socket], [setsockopt], [fread] and [sendto] return:
    it does not return and does not exit, it sleeps [interval] seconds once
    in every cycle, and it calls [sendto] once in every cycle in which
    [fread] stored a byte and in no other. *)
Theorem X9_donor_never_leaves_loop size port interval env xs :
  c_calloc env = true -> c_fopen env = true ->
  0 < interval ->
  let run := anerd_client size port interval env xs in
  snd run = Blocked
  /\ exits (fst run) = []
  /\ sleeps (fst run) = repeat interval (length xs)
  /\ length (sent (fst run)) = length (filter (fun x => donates size x) xs).
Proof.
  intros Hcalloc Hfopen Hint run. subst run.
  destruct (client_loop_running (c_socket env) size (broadcast_addr port) interval xs
              (repeat NUL (Z.to_nat size)) Hint) as (Hr & He & Hs & Hn & _).
  rewrite (anerd_client_outcome size port interval env xs Hcalloc Hfopen).
  rewrite (anerd_client_enters_loop size port interval env xs Hcalloc Hfopen).
  rewrite Hr. unfold exits, sleeps, sent in *.
  rewrite !omap_app, !length_app, He, Hs, Hn.
  destruct (c_socket env =? -1), (c_setsockopt env =? -1); simpl;
    rewrite ?app_nil_r; repeat split; try done; lia.
Qed.

Lemma X9_donor_never_leaves_loop_witness :
  let run := anerd_client DEFAULT_SIZE DEFAULT_PORT DEFAULT_INTERVAL socket_fails
               [cycle_full; cycle_empty; cycle_short] in
  snd run = Blocked
  /\ exits (fst run) = []
  /\ sleeps (fst run) = repeat DEFAULT_INTERVAL 3
  /\ length (sent (fst run))
     = length (filter (fun x => donates DEFAULT_SIZE x)
                 [cycle_full; cycle_empty; cycle_short]).
Proof.
  apply (X9_donor_never_leaves_loop DEFAULT_SIZE DEFAULT_PORT DEFAULT_INTERVAL
           socket_fails [cycle_full; cycle_empty; cycle_short]).
  - reflexivity.
  - reflexivity.
  - reflexivity.
Defined.

(** X10.  Every datagram the donor hands to [sendto], in every run, has
    exactly [size] bytes and goes to the broadcast address and the
    configured port. *)
Theorem X10_every_broadcast_is_size_bytes size port interval env xs :
  0 <= size < 2 ^ 31 ->
  let t := fst (anerd_client size port interval env xs) in
  Forall (fun p => exists bytes, p = Some bytes /\ Z.of_nat (length bytes) = size) (sent t)
  /\ Forall (fun a => a = broadcast_addr port) (sent_to t).
Proof.
  intros Hsize t. subst t.
  destruct (c_calloc env) eqn:Hcalloc; [destruct (c_fopen env) eqn:Hfopen|].
  - rewrite (anerd_client_enters_loop size port interval env xs Hcalloc Hfopen).
    destruct (client_loop_broadcasts (c_socket env) size (broadcast_addr port) interval xs
                (repeat NUL (Z.to_nat size)) Hsize (repeat_length _ _)) as [Hs Ha].
    unfold sent, sent_to in *. rewrite !omap_app, !Forall_app.
    destruct (c_socket env =? -1), (c_setsockopt env =? -1),
      (snd (client_loop (c_socket env) size (broadcast_addr port) interval xs
              (repeat NUL (Z.to_nat size))));
      simpl; repeat split; try done; constructor.
  - unfold anerd_client. rewrite Hcalloc, Hfopen.
    destruct (c_socket env =? -1), (c_setsockopt env =? -1); split; constructor.
  - unfold anerd_client. rewrite Hcalloc. split; constructor.
Qed.

Lemma X10_every_broadcast_is_size_bytes_witness :
  let t := fst (anerd_client DEFAULT_SIZE DEFAULT_PORT DEFAULT_INTERVAL setsockopt_fails
                  [cycle_short; cycle_empty; cycle_full]) in
  Forall (fun p => exists bytes, p = Some bytes /\ Z.of_nat (length bytes) = DEFAULT_SIZE)
    (sent t)
  /\ Forall (fun a => a = broadcast_addr DEFAULT_PORT) (sent_to t).
Proof.
  apply (X10_every_broadcast_is_size_bytes DEFAULT_SIZE DEFAULT_PORT DEFAULT_INTERVAL
           setsockopt_fails [cycle_short; cycle_empty; cycle_full]).
  vm_compute. split; [discriminate|reflexivity].
Defined.

(** X11.  After a cycle that filled the buffer, a cycle in which [fread]
    stores fewer than [size] bytes broadcasts these bytes followed by the
    bytes of the cycle before that they did not overwrite. *)
Theorem X11_short_read_rebroadcasts_old_bytes sock size server_addr interval x1 x2 cells :
  0 < interval ->
  0 <= size < 2 ^ 31 ->
  length cells = Z.to_nat size ->
  (Z.to_nat size <= length (pool_read x1))%nat ->
  (0 < length (pool_read x2) < Z.to_nat size)%nat ->
  let first := take (Z.to_nat size) (pool_read x1) in
  sent (fst (client_loop sock size server_addr interval [x1; x2] cells))
  = [Some first; Some (pool_read x2 ++ drop (length (pool_read x2)) first)].
Proof.
  intros Hint Hsize Hlen Hfull Hshort first.
  assert (Hgot1 : read_cells (pool_read x1) (to_size_t size) = first).
  { rewrite to_size_t_id by lia. apply read_cells_take. }
  assert (Hgot2 : read_cells (pool_read x2) (to_size_t size) = pool_read x2).
  { rewrite to_size_t_id by lia. apply read_cells_all. lia. }
  assert (Hfirst : length first = Z.to_nat size).
  { subst first. rewrite length_take. lia. }
  assert (Hcells1 : write_cells first cells = first).
  { rewrite write_cells_fits by lia. rewrite drop_ge by lia. apply app_nil_r. }
  assert (Hd1 : donates size x1 = true).
  { unfold donates. rewrite Hgot1. apply Z.ltb_lt. lia. }
  assert (Hd2 : donates size x2 = true).
  { unfold donates. rewrite Hgot2. apply Z.ltb_lt. lia. }
  rewrite client_loop_cons by done. rewrite client_loop_cons by done. cbn [fst].
  rewrite !client_cycle_cases, Hd1, Hd2, Hgot1, Hgot2, Hcells1.
  simpl. destruct (Z.ltb_spec 0 interval); [|lia]. simpl.
  rewrite (read_cells_all first) by (rewrite to_size_t_id; lia).
  rewrite read_cells_all
    by (rewrite length_write_cells, to_size_t_id; lia).
  rewrite write_cells_fits by lia. reflexivity.
Qed.

Lemma X11_short_read_rebroadcasts_old_bytes_witness :
  let first := take (Z.to_nat 4) (pool_read cycle_full) in
  sent (fst (client_loop 3 4 (broadcast_addr DEFAULT_PORT) 60 [cycle_full; cycle_short]
               (repeat NUL 4)))
  = [Some first;
     Some (pool_read cycle_short ++ drop (length (pool_read cycle_short)) first)].
Proof.
  apply (X11_short_read_rebroadcasts_old_bytes 3 4 (broadcast_addr DEFAULT_PORT) 60
           cycle_full cycle_short (repeat NUL 4)).
  - lia.
  - lia.
  - reflexivity.
  - vm_compute. lia.
  - vm_compute. lia.
Defined.

(** ** Properties of main *)

Lemma char_code_inj (a b : ascii) : char_code a = char_code b -> a = b.
Proof.
  unfold char_code. intros H. apply N2Z.inj in H.
  rewrite <- (ascii_N_embedding a), <- (ascii_N_embedding b). by rewrite H.
Qed.

(** [strncmp(s, "xy", 2) == 0] holds exactly for the strings that begin
    with the two characters. *)
Lemma strncmp_prefix (s : string) (c1 c2 : ascii) :
  char_code c1 <> 0 -> char_code c2 <> 0 ->
  (strncmp s (String c1 (String c2 EmptyString)) 2 =? 0) = true
  <-> exists rest, s = String c1 (String c2 rest).
Proof.
  intros H1 H2. destruct s as [|a [|b rest]]; simpl.
  - split; [intros H; apply Z.eqb_eq in H; lia|intros [? [=]]].
  - destruct (Z.eqb_spec (char_code a) (char_code c1)) as [Ha|Ha].
    + destruct (Z.eqb_spec (char_code a) 0); [lia|].
      split; [intros H; apply Z.eqb_eq in H; lia|intros [? [=]]].
    + split; [intros H; apply Z.eqb_eq in H; lia|intros [? [= -> ]]; congruence].
  - destruct (Z.eqb_spec (char_code a) (char_code c1)) as [Ha|Ha].
    + destruct (Z.eqb_spec (char_code a) 0); [lia|].
      destruct (Z.eqb_spec (char_code b) (char_code c2)) as [Hb|Hb].
      * destruct (Z.eqb_spec (char_code b) 0); [lia|].
        apply char_code_inj in Ha, Hb. subst. split; [by eexists|done].
      * split; [intros H; apply Z.eqb_eq in H; lia|intros [? [= -> -> ]]; congruence].
    + split; [intros H; apply Z.eqb_eq in H; lia|intros [? [= -> ]]; congruence].
Qed.

Lemma parse_args_skip atoi (pre rest : list string) cfg :
  Forall (fun arg => is_flag arg = false) pre ->
  parse_args atoi (pre ++ rest) cfg = parse_args atoi rest cfg.
Proof.
  induction 1 as [|arg pre Harg _ IH]; [done|].
  unfold is_flag in Harg. rewrite !orb_false_iff in Harg.
  destruct Harg as [[[Hd Hi] Hp] Hs].
  cbn [app parse_args]. by rewrite Hd, Hi, Hp, Hs.
Qed.

Lemma parse_args_command_line atoi (opts : list (flag * string * string)) cfg :
  parse_args atoi (command_line opts) cfg = Some (set_flags atoi opts cfg).
Proof.
  revert cfg. induction opts as [|[[f suffix] value] opts IH]; intros cfg; [done|].
  change (set_flags atoi ((f, suffix, value) :: opts) cfg)
    with (set_flags atoi opts (set_flag atoi f value cfg)).
  rewrite <- IH. by destruct f.
Qed.

(** X12.  [main] takes an argument for a flag exactly when it begins with
    "-d", "-i", "-p" or "-s": what follows the two characters is not looked
    at, and a lone "-" or an empty argument is no flag. *)
Theorem X12_flags_are_matched_by_prefix (arg : string) :
  is_flag arg = true
  <-> exists letter rest,
        arg = String "-" (String letter rest)
        /\ (letter = "d" \/ letter = "i" \/ letter = "p" \/ letter = "s")%char.
Proof.
  unfold is_flag. rewrite !orb_true_iff.
  rewrite !strncmp_prefix by (vm_compute; discriminate).
  split.
  - intros [[[[r ->] | [r ->]] | [r ->]] | [r ->]]; do 2 eexists; split; eauto.
  - intros (letter & rest & -> & [-> | [-> | [-> | ->]]]); eauto 6.
Qed.

(** X13.  Arguments that are no flags are passed over, the program name
    [argv[0]] among them: a command line without a flag leaves the
    defaults, and arguments in front of the first flag change nothing. *)
Theorem X13_other_arguments_are_ignored atoi (pre rest : list string) cfg :
  Forall (fun arg => is_flag arg = false) pre ->
  parse_args atoi (pre ++ rest) cfg = parse_args atoi rest cfg
  /\ parse_args atoi pre defaults
     = Some {| cfg_device := Some "/dev/urandom"; cfg_interval := 60;
               cfg_port := 26373; cfg_size := 64 |}.
Proof.
  intros Hpre. split.
  - by apply parse_args_skip.
  - rewrite <- (app_nil_r pre). by rewrite parse_args_skip.
Qed.

Lemma X13_other_arguments_are_ignored_witness :
  parse_args atoi_decimal (["anerd"; "--verbose"; "-"] ++ ["-s"; "128"]) defaults
  = parse_args atoi_decimal ["-s"; "128"] defaults
  /\ parse_args atoi_decimal ["anerd"; "--verbose"; "-"] defaults
     = Some {| cfg_device := Some "/dev/urandom"; cfg_interval := 60;
               cfg_port := 26373; cfg_size := 64 |}.
Proof.
  apply (X13_other_arguments_are_ignored atoi_decimal
           ["anerd"; "--verbose"; "-"] ["-s"; "128"] defaults).
  repeat constructor.
Defined.

(** X14.  On a command line made of a program name and options, each a
    flag followed by its value, [main] sets the variables option by option
    from left to right, so that the last value given for a variable stays;
    a value is taken as it is, also when it looks like a flag. *)
Theorem X14_options_are_applied_in_order atoi (prog : string)
    (opts : list (flag * string * string)) :
  is_flag prog = false ->
  parse_args atoi (prog :: command_line opts) defaults
  = Some (set_flags atoi opts defaults).
Proof.
  intros Hprog.
  change (prog :: command_line opts) with ([prog] ++ command_line opts).
  rewrite parse_args_skip by (by constructor).
  apply parse_args_command_line.
Qed.

Lemma X14_options_are_applied_in_order_witness :
  parse_args atoi_decimal
    ("anerd" :: command_line [(FlagSize, "", "128"); (FlagDevice, "evice", "-s");
                              (FlagSize, "ize", "32"); (FlagPort, "", "9000")])
    defaults
  = Some (set_flags atoi_decimal
            [(FlagSize, "", "128"); (FlagDevice, "evice", "-s");
             (FlagSize, "ize", "32"); (FlagPort, "", "9000")] defaults).
Proof.
  apply (X14_options_are_applied_in_order atoi_decimal "anerd"
           [(FlagSize, "", "128"); (FlagDevice, "evice", "-s");
            (FlagSize, "ize", "32"); (FlagPort, "", "9000")]).
  reflexivity.
Defined.

Example options_sample :
  set_flags atoi_decimal
    [(FlagSize, "", "128"); (FlagDevice, "evice", "-s");
     (FlagSize, "ize", "32"); (FlagPort, "", "9000")] defaults
  = {| cfg_device := Some "-s"; cfg_interval := 60; cfg_port := 9000; cfg_size := 32 |}.
Proof. reflexivity. Qed.

(** X15.  A flag that is the last argument has the null pointer for its
    value: "-d" leaves [device] null, while "-i", "-p" and "-s" pass the
    null pointer to [atoi], for which there is no result. *)
Theorem X15_flag_without_value atoi (pre : list string) (last : string) cfg :
  Forall (fun arg => is_flag arg = false) pre ->
  is_flag last = true ->
  parse_args atoi (pre ++ [last]) cfg
  = if strncmp last "-d" 2 =? 0 then Some (set_device None cfg) else None.
Proof.
  intros Hpre Hlast. rewrite parse_args_skip by done.
  unfold is_flag in Hlast. cbn [parse_args].
  destruct (strncmp last "-d" 2 =? 0); [done|].
  destruct (strncmp last "-i" 2 =? 0); [done|].
  destruct (strncmp last "-p" 2 =? 0); [done|].
  destruct (strncmp last "-s" 2 =? 0); [done|].
  discriminate Hlast.
Qed.

Lemma X15_flag_without_value_witness :
  parse_args atoi_decimal (["anerd"] ++ ["-s"]) defaults
  = if strncmp "-s" "-d" 2 =? 0 then Some (set_device None defaults) else None.
Proof.
  apply (X15_flag_without_value atoi_decimal ["anerd"] "-s" defaults).
  - repeat constructor.
  - reflexivity.
Defined.

Lemma anerd_server_never_returns size port env xs (v : Z) :
  snd (anerd_server size port env xs) <> Val v.
Proof.
  unfold anerd_server.
  destruct (s_socket env =? -1); [done|].
  destruct (s_fopen env); [|done]. destruct (s_calloc env); [|done].
  destruct (s_bind env =? -1); [done|].
  cbn [bind emit ret app].
  pose proof (server_loop_blocked (s_socket env) size xs (initial_state size env)) as H.
  destruct (server_loop (s_socket env) size xs (initial_state size env)) as [t r].
  simpl in *. by subst r.
Qed.

(** X16.  The value of [fork()] alone decides what a process does with the
    parsed [size], [port] and [interval]: the child runs the donor and,
    should the donor come back from its loop, leaves [main] with status 0;
    every other process, the one in which [fork()] failed and returned -1
    included, runs the responder. *)
Theorem X16_fork_decides_role atoi argv pid cenv cycles senv datagrams cfg :
  parse_args atoi argv defaults = Some cfg ->
  let donor := anerd_client (cfg_size cfg) (cfg_port cfg) (cfg_interval cfg) cenv cycles in
  let responder := anerd_server (cfg_size cfg) (cfg_port cfg) senv datagrams in
  main atoi argv pid cenv cycles senv datagrams
  = Some (if pid =? 0
          then (fst donor,
                match snd donor with
                | Val _ => Val 0
                | Halted status => Halted status
                | Blocked => Blocked
                end)
          else responder).
Proof.
  intros Hparse donor responder. unfold main. rewrite Hparse. f_equal.
  destruct (pid =? 0).
  - fold donor. destruct donor as [t [v|status|]]; simpl; by rewrite ?app_nil_r.
  - fold responder.
    pose proof (anerd_server_never_returns (cfg_size cfg) (cfg_port cfg) senv datagrams)
      as Hnever.
    fold responder in Hnever.
    destruct responder as [t [v|status|]]; simpl in *; [by destruct (Hnever v)|done|done].
Qed.

Lemma X16_fork_decides_role_witness :
  let cfg := set_interval 0 defaults in
  let donor := anerd_client (cfg_size cfg) (cfg_port cfg) (cfg_interval cfg)
                 setsockopt_fails [cycle_full] in
  let responder := anerd_server (cfg_size cfg) (cfg_port cfg) setup_ok [datagram_AB] in
  main atoi_decimal ["anerd"; "-i"; "0"] (-1) setsockopt_fails [cycle_full]
    setup_ok [datagram_AB]
  = Some (if -1 =? 0
          then (fst donor,
                match snd donor with
                | Val _ => Val 0
                | Halted status => Halted status
                | Blocked => Blocked
                end)
          else responder).
Proof.
  apply (X16_fork_decides_role atoi_decimal ["anerd"; "-i"; "0"] (-1)
           setsockopt_fails [cycle_full] setup_ok [datagram_AB]
           (set_interval 0 defaults)).
  reflexivity.
Defined.

(** ** The chain of salts *)

Lemma salts_written_iteration sock size x st :
  salts_written (fst (server_iteration sock size x st))
  = [double_bytes (int_mul (last_usec st) (usec_stamp (clock x)))].
Proof.
  unfold server_iteration. by destruct (arrival x) as [[dgram from]|].
Qed.

Lemma salts_written_loop sock size xs st (last : timeval) :
  last_usec st = usec_stamp last ->
  salts_written (fst (server_loop sock size xs st))
  = map double_bytes (salt_chain last (map clock xs)).
Proof.
  revert st last. induction xs as [|x xs IH]; intros st last Hlast; [done|].
  rewrite server_loop_cons. cbn [fst]. unfold salts_written in *.
  rewrite omap_app. fold (salts_written (fst (server_iteration sock size x st))).
  rewrite salts_written_iteration, Hlast.
  rewrite (IH (state_after sock size x st) (clock x)) by apply last_usec_after.
  reflexivity.
Qed.

(** X17.  Over a whole run the responder appends one salt for every turn,
    and each is the [int] product of the timestamps of two successive clock
    readings: the reading at start-up and the reading of the first turn,
    then the readings of the first and the second turn, and so on. *)
Theorem X17_salts_chain_successive_readings size port env xs :
  s_socket env <> -1 -> s_fopen env = true -> s_calloc env = true -> s_bind env <> -1 ->
  salts_written (fst (anerd_server size port env xs))
  = map double_bytes (salt_chain (s_clock env) (map clock xs)).
Proof.
  intros Hsock Hfopen Hcalloc Hbind.
  rewrite (anerd_server_enters_loop size port env xs Hsock Hfopen Hcalloc Hbind).
  cbn [fst]. unfold salts_written. rewrite omap_app. cbn [omap list_omap app].
  by apply salts_written_loop.
Qed.

Lemma X17_salts_chain_successive_readings_witness :
  salts_written (fst (anerd_server DEFAULT_SIZE DEFAULT_PORT setup_ok
                        [datagram_AB; datagram_lost; datagram_full]))
  = map double_bytes
      (salt_chain (s_clock setup_ok)
         (map clock [datagram_AB; datagram_lost; datagram_full])).
Proof.
  apply (X17_salts_chain_successive_readings DEFAULT_SIZE DEFAULT_PORT setup_ok
           [datagram_AB; datagram_lost; datagram_full]).
  - vm_compute. discriminate.
  - reflexivity.
  - reflexivity.
  - vm_compute. discriminate.
Defined.

(** ** The salt bytes read back *)

Lemma byte_of_Z_value (z : Z) : Z.of_N (Byte.to_N (byte_of_Z z)) = z mod 256.
Proof.
  unfold byte_of_Z.
  pose proof (Z.mod_pos_bound z 256 ltac:(lia)) as Hbound.
  destruct (Byte.of_N (Z.to_N (z mod 256))) as [b|] eqn:Hb.
  - apply Byte.to_of_N in Hb. rewrite Hb. lia.
  - apply Byte.of_N_None_iff in Hb. lia.
Qed.

Lemma Z_of_le_bytes_value (n : nat) (z : Z) :
  Z_of_le_bytes (le_bytes n z) = z mod 256 ^ Z.of_nat n.
Proof.
  revert z. induction n as [|n IH]; intros z.
  - simpl. by rewrite Z.mod_1_r.
  - cbn [le_bytes Z_of_le_bytes]. rewrite byte_of_Z_value, IH.
    rewrite Nat2Z.inj_succ, Z.pow_succ_r by lia.
    rewrite Z.rem_mul_r by lia. reflexivity.
Qed.

Lemma double_bits_value (z : Z) :
  in_int z ->
  0 <= double_bits z < 2 ^ 64 /\ Z_of_double_bits (double_bits z) = z.
Proof.
  unfold in_int. intros Hz. unfold double_bits.
  destruct (Z.eqb_spec z 0) as [->|Hnz]; [split; [lia|reflexivity]|].
  set (a := Z.abs z). set (e := Z.log2 a).
  assert (Ha : 0 < a < 2 ^ 32) by lia.
  assert (He : 0 <= e < 32).
  { split; [apply Z.log2_nonneg|apply Z.log2_lt_pow2; lia]. }
  destruct (Z.log2_spec a ltac:(lia)) as [Hlo Hhi]. fold e in Hlo, Hhi.
  rewrite Z.pow_succ_r in Hhi by lia.
  assert (HPQ : 2 ^ (52 - e) * 2 ^ e = 2 ^ 52).
  { rewrite <- Z.pow_add_r by lia. f_equal. lia. }
  assert (HP : 0 < 2 ^ (52 - e)) by (apply Z.pow_pos_nonneg; lia).
  set (P := 2 ^ (52 - e)) in *. set (Q := 2 ^ e) in *.
  set (m := a * P - 2 ^ 52).
  assert (Hm : 0 <= m < 2 ^ 52) by (subst m; nia).
  set (s := if z <? 0 then 1 else 0).
  assert (Hs : (if z <? 0 then 2 ^ 63 else 0) = s * 2 ^ 63).
  { subst s. by destruct (z <? 0). }
  assert (Hs01 : s = 0 \/ s = 1) by (subst s; destruct (z <? 0); lia).
  rewrite Hs.
  set (bits := s * 2 ^ 63 + (e + 1023) * 2 ^ 52 + m).
  assert (Hbits : 0 < bits < 2 ^ 64) by (subst bits; lia).
  split; [lia|].
  assert (H52 : bits / 2 ^ 52 = s * 2 ^ 11 + (e + 1023)).
  { symmetry. apply (Z.div_unique_pos bits (2 ^ 52) _ m); [lia|]. subst bits. lia. }
  assert (Hm52 : bits mod 2 ^ 52 = m).
  { symmetry. apply (Z.mod_unique_pos bits (2 ^ 52) (s * 2 ^ 11 + (e + 1023)) m); [lia|].
    subst bits. lia. }
  assert (H63 : bits / 2 ^ 63 = s).
  { symmetry. apply (Z.div_unique_pos bits (2 ^ 63) s ((e + 1023) * 2 ^ 52 + m)); [lia|].
    subst bits. lia. }
  assert (H11 : (s * 2 ^ 11 + (e + 1023)) mod 2 ^ 11 = e + 1023).
  { symmetry. apply (Z.mod_unique_pos _ (2 ^ 11) s (e + 1023)); lia. }
  unfold Z_of_double_bits.
  destruct (Z.eqb_spec bits 0) as [|_]; [lia|].
  rewrite H52, H11, Hm52, H63.
  replace (e + 1023 - 1023) with e by lia. fold P.
  replace (2 ^ 52 + m) with (a * P) by (subst m; lia).
  rewrite Z.div_mul by lia.
  subst s a. destruct (Z.ltb_spec z 0); simpl; lia.
Qed.

(** X18.  The eight bytes appended for a salt hold it without loss: read
    back as a little-endian binary64 number they give the [int] product
    again, so different salts are appended as different bytes. *)
Theorem X18_salt_bytes_read_back (a b : Z) :
  Z_of_double_bits (Z_of_le_bytes (double_bytes (int_mul a b))) = int_mul a b.
Proof.
  pose proof (to_int_range (a * b)) as Hrange. fold (int_mul a b) in Hrange.
  destruct (double_bits_value (int_mul a b) Hrange) as [Hbits Hback].
  unfold double_bytes. rewrite Z_of_le_bytes_value.
  change (256 ^ Z.of_nat (Z.to_nat sizeof_double)) with (2 ^ 64).
  rewrite Z.mod_small by lia. exact Hback.
Qed.
